(** * gcplog targets of promtail: push and pull ingestion

    A shallow embedding of
      clients/pkg/promtail/targets/gcplog/push_target.go
      clients/pkg/promtail/targets/gcplog/pull_target.go
    and the properties of their request handling, acknowledgment
    discipline and shutdown.

    Conventions.  A Go struct is a record holding the current state of the
    objects it points to.  A goroutine runs atomically from one blocking
    operation (channel send or receive, [select], [wg.Wait], [sub.Receive])
    to the next; the interleaving of goroutines is a schedule, a list of
    actions, and [exec] runs a schedule.  Collaborators whose code is not
    part of the two files (the entry handler, the HTTP server, the JSON
    decoder, the translators, the metric-name check) are section variables
    or class operations. *)

From Stdlib Require Import ZArith Lia Ascii String.
From stdpp Require Import base option list strings gmap.

Open Scope string_scope.
Open Scope list_scope.

(** ** Shared vocabulary *)

(** Go [error] values are identified with their messages. *)
Definition error := string.

(** [model.LabelSet]; the nil label set is the empty map. *)
Abbreviation LabelSet := (gmap string string).

(** [api.Entry]: labels, timestamp and log line. *)
Record Entry := mkEntry {
  Labels : LabelSet;
  Timestamp : Z;
  Line : string }.

#[global] Instance Entry_eq_dec : EqDecision Entry.
Proof. solve_decision. Defined.

(** go-kit logging: a logger is the context bound by [log.With]; a line is
    the level, that context and the key/value pairs of the call. *)
Definition Logger := list (string * string).
Definition LogLine := list (string * string).

Definition log_With (l : Logger) (k v : string) : Logger := l ++ [(k, v)].

Definition Log (lvl : string) (l : Logger) (kvs : list (string * string)) : LogLine :=
  ("level", lvl) :: l ++ kvs.

(** A Go [interface{}] result, as far as the targets produce one. *)
Inductive any :=
| any_nil
| any_map (m : gmap string string).

Definition is_map (v : any) : bool :=
  match v with any_map _ => true | any_nil => false end.

(** [target.TargetType] is a string type. *)
Definition TargetType := string.

(** [*Metrics]: the counters and the gauge the two targets touch.  The pull
    counters are vectors keyed by project, the gauge by project and
    subscription; the push counters carry no label. *)
Record Metrics := mkMetrics {
  gcplogEntries : gmap string nat;
  gcplogErrors : gmap string nat;
  gcplogTargetLastSuccessScrape : gmap (string * string) Z;
  gcpPushEntries : nat;
  gcpPushErrors : nat }.

Definition vec_Inc `{Countable K} (k : K) (c : gmap K nat) : gmap K nat :=
  <[k := S (default 0 (c !! k))]> c.

Definition vec_get `{Countable K} (k : K) (c : gmap K nat) : nat :=
  default 0 (c !! k).

Definition inc_gcplogEntries (p : string) (m : Metrics) : Metrics :=
  mkMetrics (vec_Inc p (gcplogEntries m)) (gcplogErrors m)
            (gcplogTargetLastSuccessScrape m) (gcpPushEntries m) (gcpPushErrors m).

Definition inc_gcplogErrors (p : string) (m : Metrics) : Metrics :=
  mkMetrics (gcplogEntries m) (vec_Inc p (gcplogErrors m))
            (gcplogTargetLastSuccessScrape m) (gcpPushEntries m) (gcpPushErrors m).

Definition set_LastSuccessScrape (p s : string) (now : Z) (m : Metrics) : Metrics :=
  mkMetrics (gcplogEntries m) (gcplogErrors m)
            (<[(p, s) := now]> (gcplogTargetLastSuccessScrape m))
            (gcpPushEntries m) (gcpPushErrors m).

Definition inc_gcpPushEntries (m : Metrics) : Metrics :=
  mkMetrics (gcplogEntries m) (gcplogErrors m)
            (gcplogTargetLastSuccessScrape m) (S (gcpPushEntries m)) (gcpPushErrors m).

Definition inc_gcpPushErrors (m : Metrics) : Metrics :=
  mkMetrics (gcplogEntries m) (gcplogErrors m)
            (gcplogTargetLastSuccessScrape m) (gcpPushEntries m) (S (gcpPushErrors m)).

(** [api.EntryHandler]: the sink.  [Chan_send e h] is the sink after a send
    of [e] on [handler.Chan()] has completed; whether and when a send
    completes is decided by the sink's reader, not by the sender.
    [Stop_handler] is [handler.Stop()]. *)
Class EntryHandler (H : Type) := {
  Chan_send : Entry -> H -> H;
  Stop_handler : H -> H }.

(** [weaveworks/common/server]: configuration and server. *)
Record ServerConfig := mkServerConfig {
  HTTPListenPort : Z;
  MetricsNamespace : string;
  RegisterInstrumentation : bool;
  ServerLog : Logger }.

Class HTTPServer (S : Type) := {
  server_New : ServerConfig -> error + S;
  (* [srv.HTTP.Path(p).Methods(m).Handler(...)] *)
  server_Route : string -> string -> S -> S;
  server_Shutdown : S -> S }.

(** [relabel.Config] is opaque here: it is only handed to the translators. *)
Definition RelabelConfig := string.

(** [scrapeconfig.GcplogTargetConfig], the fields the targets read. *)
Record GcplogTargetConfig := mkConfig {
  ProjectID : string;
  Subscription : string;
  cfgLabels : LabelSet;
  UseIncomingTimestamp : bool;
  Server : ServerConfig }.

(** The facade [target.Target], without [Stop] (whose effects differ per
    variant and are given with each variant). *)
Class Target (T : Type) := {
  target_Type : T -> TargetType;
  target_DiscoveredLabels : T -> LabelSet;
  target_Labels : T -> LabelSet;
  target_Ready : T -> bool;
  target_Details : T -> any }.

(** ** Push ingress: [push_target.go] *)

Module Push.
Section PushTarget.
Context {H : Type} `{EntryHandler H} {Srv : Type} `{HTTPServer Srv}.

(** Collaborators declared outside [push_target.go]. *)
Context {PushMessage : Type}.
Variable json_Unmarshal : string -> error + PushMessage.
Variable translate :
  PushMessage -> LabelSet -> bool -> list RelabelConfig -> string -> error + Entry.
Variable IsValidMetricName : string -> bool.
Variable MergeWithDefaults : ServerConfig -> error + ServerConfig.
Variable util_log_Logger : Logger.
Variable GcplogTargetType : TargetType.

(** [server] is [None] while the pointer is nil. *)
Record pushTarget := mkPushTarget {
  logger : Logger;
  handler : H;
  config : GcplogTargetConfig;
  jobName : string;
  server : option Srv;
  metrics : Metrics;
  relabelConfigs : list RelabelConfig }.

(** What the process shows besides the target: the log output, the
    configurations of the servers [server.New] has built, and the number
    of goroutines running [srv.Run]. *)
Record World := mkWorld {
  out : list LogLine;
  created : list ServerConfig;
  serving : nat }.

Definition emit (l : LogLine) (w : World) : World :=
  mkWorld (out w ++ [l]) (created w) (serving w).

Definition set_config_Server (s : ServerConfig) (c : GcplogTargetConfig) :=
  mkConfig (ProjectID c) (Subscription c) (cfgLabels c) (UseIncomingTimestamp c) s.

Definition set_config (c : GcplogTargetConfig) (h : pushTarget) : pushTarget :=
  mkPushTarget (logger h) (handler h) c (jobName h) (server h) (metrics h)
               (relabelConfigs h).

Definition set_server (s : option Srv) (h : pushTarget) : pushTarget :=
  mkPushTarget (logger h) (handler h) (config h) (jobName h) s (metrics h)
               (relabelConfigs h).

Definition set_handler (x : H) (h : pushTarget) : pushTarget :=
  mkPushTarget (logger h) x (config h) (jobName h) (server h) (metrics h)
               (relabelConfigs h).

Definition set_metrics (m : Metrics) (h : pushTarget) : pushTarget :=
  mkPushTarget (logger h) (handler h) (config h) (jobName h) (server h) m
               (relabelConfigs h).

(** [run]: the error (if any), the target and the world afterwards.  The
    goroutine of [srv.Run] is counted in [serving]; what it logs when the
    server later fails is not part of [run]. *)
Definition run (h : pushTarget) (w : World) : option error * pushTarget * World :=
  let w := emit (Log "info" (logger h)
                     [("msg", "starting gcp push target"); ("job", jobName h)]) w in
  let tentativeServerMetricNamespace := "promtail_gcp_push_target_" +:+ jobName h in
  if negb (IsValidMetricName tentativeServerMetricNamespace) then
    (Some ("invalid prometheus-compatible job name: " +:+ jobName h), h, w)
  else
    let cfg :=
      mkServerConfig (HTTPListenPort (Server (config h)))
                     tentativeServerMetricNamespace
                     false
                     (log_With util_log_Logger "component" "gcp_push") in
    let h := set_config (set_config_Server cfg (config h)) h in
    match server_New cfg with
    | inl err => (Some err, h, w)
    | inr srv =>
        let h := set_server (Some (server_Route "/gcp/api/v1/push" "POST" srv)) h in
        (None, h, mkWorld (out w) (created w ++ [cfg]) (S (serving w)))
    end.

Definition newPushTarget (metrics : Metrics) (logger : Logger) (handler : H)
    (jobName : string) (config : GcplogTargetConfig)
    (relabel : list RelabelConfig) (w : World) : (error + pushTarget) * World :=
  let wrappedLogger := log_With logger "component" "gcp_push" in
  let ht := mkPushTarget wrappedLogger handler config jobName None metrics relabel in
  match MergeWithDefaults (Server config) with
  | inl err =>
      (inl ("failed to parse configs and override defaults when configuring gcp push target: "
            +:+ err), w)
  | inr mergedServerConfigs =>
      let ht := set_config (set_config_Server mergedServerConfigs config) ht in
      match run ht w with
      | (Some err, _, w) => (inl err, w)
      | (None, ht, w) => (inr ht, w)
      end
  end.

(** [*http.Request], as far as [push] reads it: what [io.ReadAll(r.Body)]
    returns, and [r.Header.Get]. *)
Record Request := mkRequest {
  Body : error + string;
  Header_Get : string -> string }.

(** [http.ResponseWriter]: [status] is [None] until the header is written. *)
Record ResponseWriter := mkResponse {
  status : option Z;
  header : gmap string string;
  body : string }.

Definition StatusBadRequest : Z := 400.
Definition StatusNoContent : Z := 204.
Definition StatusOK : Z := 200.

Definition WriteHeader (code : Z) (rw : ResponseWriter) : ResponseWriter :=
  match status rw with
  | None => mkResponse (Some code) (header rw) (body rw)
  | Some _ => rw
  end.

Definition Write (data : string) (rw : ResponseWriter) : ResponseWriter :=
  let rw := WriteHeader StatusOK rw in
  mkResponse (status rw) (header rw) (body rw +:+ data).

Definition http_Error (msg : string) (code : Z) (rw : ResponseWriter) : ResponseWriter :=
  let hd := <["X-Content-Type-Options" := "nosniff"]>
            (<["Content-Type" := "text/plain; charset=utf-8"]>
             (delete "Content-Length" (header rw))) in
  Write (msg +:+ "
") (WriteHeader code (mkResponse (status rw) hd (body rw))).

(** How far a call of [push] gets: it returns, or it is blocked in
    [entries <- entry] because the sink does not take the entry. *)
Inductive PushResult :=
| Returned (h : pushTarget) (rw : ResponseWriter) (w : World)
| BlockedInSend (entry : Entry) (h : pushTarget) (rw : ResponseWriter) (w : World).

(** The three failure branches share their shape. *)
Definition push_reject (msg : string) (err : error)
    (h : pushTarget) (rw : ResponseWriter) (w : World) : PushResult :=
  let h := set_metrics (inc_gcpPushErrors (metrics h)) h in
  let w := emit (Log "warn" (logger h) [("msg", msg); ("err", err)]) w in
  Returned h (http_Error err StatusBadRequest rw) w.

(** [push]; [sink_accepts] says whether the sink's reader takes the entry. *)
Definition push (sink_accepts : bool) (h : pushTarget) (rw : ResponseWriter)
    (r : Request) (w : World) : PushResult :=
  match Body r with
  | inl err => push_reject "failed to read incoming gcp push request" err h rw w
  | inr bs =>
    match json_Unmarshal bs with
    | inl err => push_reject "failed to unmarshall gcp push request" err h rw w
    | inr pushMessage =>
      match translate pushMessage (cfgLabels (config h))
                      (UseIncomingTimestamp (config h)) (relabelConfigs h)
                      (Header_Get r "X-Scope-OrgID") with
      | inl err => push_reject "failed to translate gcp push request" err h rw w
      | inr entry =>
        let w := emit (Log "debug" (logger h)
                           [("msg", "Received line: " +:+ Line entry)]) w in
        if sink_accepts then
          let h := set_handler (Chan_send entry (handler h)) h in
          let h := set_metrics (inc_gcpPushEntries (metrics h)) h in
          Returned h (WriteHeader StatusNoContent rw) w
        else BlockedInSend entry h rw w
      end
    end
  end.

(** The three ways a request fails before anything is submitted: the body
    cannot be read, the payload does not parse, the translation fails. *)
Inductive push_failure (h : pushTarget) (r : Request) : error -> Prop :=
| body_unreadable err :
    Body r = inl err -> push_failure h r err
| payload_unparseable bs err :
    Body r = inr bs -> json_Unmarshal bs = inl err -> push_failure h r err
| translation_failed bs pushMessage err :
    Body r = inr bs -> json_Unmarshal bs = inr pushMessage ->
    translate pushMessage (cfgLabels (config h)) (UseIncomingTimestamp (config h))
              (relabelConfigs h) (Header_Get r "X-Scope-OrgID") = inl err ->
    push_failure h r err.

Definition Type_ (h : pushTarget) : TargetType := GcplogTargetType.
Definition DiscoveredLabels (h : pushTarget) : LabelSet := ∅.
Definition Labels (h : pushTarget) : LabelSet := cfgLabels (config h).
Definition Ready (h : pushTarget) : bool := true.
Definition Details (h : pushTarget) : any := any_map ∅.

(** [Stop]; [None] is the nil-pointer panic of [h.server.Shutdown()] on a
    target whose server was never set. *)
Definition Stop (h : pushTarget) (w : World) : option (option error * pushTarget * World) :=
  let w := emit (Log "info" (logger h)
                     [("msg", "stopping gcp push target"); ("job", jobName h)]) w in
  match server h with
  | None => None
  | Some srv =>
      let h := set_server (Some (server_Shutdown srv)) h in
      let h := set_handler (Stop_handler (handler h)) h in
      Some (None, h, w)
  end.

(** What a built target goes through: requests handled by [push] and calls
    of [Stop], in any order. *)
Inductive Call :=
| CallPush (sink_accepts : bool) (rw : ResponseWriter) (r : Request)
| CallStop.

(** The target and the world after one call.  A request blocked in the
    send has not changed the target; a panic ends the run. *)
Definition call (c : Call) (h : pushTarget) (w : World) : option (pushTarget * World) :=
  match c with
  | CallPush sink_accepts rw r =>
      match push sink_accepts h rw r w with
      | Returned h' _ w' => Some (h', w')
      | BlockedInSend _ h' _ w' => Some (h', w')
      end
  | CallStop =>
      match Stop h w with
      | Some (_, h', w') => Some (h', w')
      | None => None
      end
  end.

Fixpoint calls (cs : list Call) (h : pushTarget) (w : World) : option (pushTarget * World) :=
  match cs with
  | [] => Some (h, w)
  | c :: rest =>
      match call c h w with
      | Some (h', w') => calls rest h' w'
      | None => None
      end
  end.

(** A second [Stop] that is a no-op beyond the first: it returns what the
    first returned and leaves the target, its server and its sink, as the
    first left them. *)
Definition Stop_again_is_noop (h : pushTarget) (w : World) : Prop :=
  forall r h1 w1,
    Stop h w = Some (r, h1, w1) ->
    exists w2, Stop h1 w1 = Some (r, h1, w2).

#[export] Instance pushTarget_Target : Target pushTarget :=
  {| target_Type := Type_;
     target_DiscoveredLabels := DiscoveredLabels;
     target_Labels := Labels;
     target_Ready := Ready;
     target_Details := Details |}.

End PushTarget.
End Push.


(** ** Pull ingress: [pull_target.go] *)

Module Pull.

(** [*pubsub.Message], the handle delivered by the subscription client. *)
Record Message := mkMessage {
  ID : string;
  Data : string;
  Attributes : gmap string string;
  PublishTime : Z }.

#[global] Instance Message_eq_dec : EqDecision Message.
Proof. solve_decision. Defined.

(** A Go channel of message handles: its capacity and the values buffered
    in it.  [make(chan *pubsub.Message)] is [make_chan 0]. *)
Record Chan := mkChan {
  cap : nat;
  buf : list Message }.

Definition make_chan (n : nat) : Chan := mkChan n [].

(** Calls on collaborators and synchronisation points, in the order in
    which they happen. *)
Inductive Event :=
| EvRecv (m : Message)                       (* [m := <-t.msgs] *)
| EvFormat (m : Message) (r : error + Entry) (* [format(m, ...)] and its result *)
| EvSend (m : Message) (entry : Entry)       (* [send <- entry] completed *)
| EvAck (m : Message)                        (* [m.Ack()] *)
| EvLoopExit                                 (* [return t.ctx.Err()] *)
| EvReceiveReturn (err : option error)       (* [sub.Receive] returned *)
| EvCancel                                   (* [t.cancel()] *)
| EvWaitReturn                               (* [t.wg.Wait()] returned *)
| EvHandlerStop                              (* [t.handler.Stop()] *)
| EvStopReturn.                              (* [Stop] returned *)

(** The goroutine of [run]. *)
Inductive Consumer :=
| CSpawned                                (* created by [go], nothing executed *)
| CSelect                                 (* at the [select] of the loop *)
| CSending (m : Message) (entry : Entry)  (* blocked in [send <- entry] *)
| CReturned.                              (* [run] returned, [wg.Done()] ran *)

(** The goroutine around [sub.Receive]. *)
Inductive Receiver :=
| RNotStarted
| RReceiving
| RReturned.

(** The caller of [Stop]: idle after [n] completed calls, or blocked in
    [t.wg.Wait()] of call number [n + 1]. *)
Inductive Stopper :=
| SIdle (n : nat)
| SWaiting (n : nat).

(** What the scheduler and the environment can do next. *)
Inductive Action :=
| RunStart                          (* [run] up to its first [select] *)
| SelectDone                        (* [case <-t.ctx.Done()] *)
| SelectMsg (i : nat) (now : Z)     (* [case m := <-t.msgs], from callback [i] *)
| SinkAccept                        (* the sink's reader takes the entry *)
| Deliver (m : Message)             (* the client invokes the callback on [m] *)
| CallbackBuffered (i : nat)        (* callback [i] puts its handle in the buffer *)
| ReceiveReturn (err : option error) (now : Z)
| StopCall                          (* [Stop] up to [t.wg.Wait()] *)
| StopJoin.                         (* [t.wg.Wait()] returns, rest of [Stop] *)

#[global] Instance Action_eq_dec : EqDecision Action.
Proof. solve_decision. Defined.

Section PullTarget.
Context {H : Type} `{EntryHandler H}.

(** Collaborators declared outside [pull_target.go].  [format] reads the
    wall clock when the incoming timestamp is not used; the reading is its
    last argument. *)
Context {Client : Type}.
Variable pubsub_NewClient : string -> error + Client.
Variable format :
  Message -> LabelSet -> bool -> list RelabelConfig -> Z -> error + Entry.
Variable GcplogTargetType : TargetType.

(** [ctx_done] is the state of [t.ctx] (and what [t.cancel] sets); [wg] the
    counter of the wait group. *)
Record pullTarget := mkPullTarget {
  metrics : Metrics;
  logger : Logger;
  handler : H;
  config : GcplogTargetConfig;
  relabelConfig : list RelabelConfig;
  jobName : string;
  ctx_done : bool;
  wg : Z;
  ps : Client;
  msgs : Chan }.

(** The target, its goroutines, the delivery callbacks blocked in
    [t.msgs <- m], the log output and the events so far. *)
Record System := mkSystem {
  target : pullTarget;
  consumer : Consumer;
  receiver : Receiver;
  stopper : Stopper;
  callbacks : list Message;
  output : list LogLine;
  trace : list Event }.

Definition set_metrics (x : Metrics) (t : pullTarget) : pullTarget :=
  mkPullTarget x (logger t) (handler t) (config t) (relabelConfig t) (jobName t)
               (ctx_done t) (wg t) (ps t) (msgs t).

Definition set_handler (x : H) (t : pullTarget) : pullTarget :=
  mkPullTarget (metrics t) (logger t) x (config t) (relabelConfig t) (jobName t)
               (ctx_done t) (wg t) (ps t) (msgs t).

Definition set_wg (x : Z) (t : pullTarget) : pullTarget :=
  mkPullTarget (metrics t) (logger t) (handler t) (config t) (relabelConfig t)
               (jobName t) (ctx_done t) x (ps t) (msgs t).

Definition set_msgs (x : Chan) (t : pullTarget) : pullTarget :=
  mkPullTarget (metrics t) (logger t) (handler t) (config t) (relabelConfig t)
               (jobName t) (ctx_done t) (wg t) (ps t) x.

(** [t.cancel()]: cancelling a cancelled context changes nothing. *)
Definition cancel (t : pullTarget) : pullTarget :=
  mkPullTarget (metrics t) (logger t) (handler t) (config t) (relabelConfig t)
               (jobName t) true (wg t) (ps t) (msgs t).

(** [newPullTarget]: on success the system right after the constructor
    returned, the goroutine of [run] created and not yet scheduled. *)
Definition newPullTarget (metrics : Metrics) (logger : Logger) (handler : H)
    (relabel : list RelabelConfig) (jobName : string)
    (config : GcplogTargetConfig) : error + System :=
  match pubsub_NewClient (ProjectID config) with
  | inl err => inl err
  | inr ps =>
      let target := mkPullTarget metrics logger handler config relabel jobName
                                 false 0 ps (make_chan 0) in
      inr (mkSystem target CSpawned RNotStarted (SIdle 0) [] [] [])
  end.

(** [run] is given block by block, each block running from one blocking
    operation to the next: [run_start], then at the [select] either
    [select_done] or [select_msg], and [sink_accept] when the send to the
    sink completes.  The goroutine started inside [run] is [receive_return],
    with [deliver] for the callback it hands to [sub.Receive]. *)

(** From the start of the goroutine to the loop: [t.wg.Add(1)], and the
    goroutine calling [sub.Receive] is started. *)
Definition run_start (s : System) : option System :=
  match consumer s with
  | CSpawned =>
      Some (mkSystem (set_wg (wg (target s) + 1) (target s)) CSelect RReceiving
                     (stopper s) (callbacks s) (output s) (trace s))
  | _ => None
  end.

(** [case <-t.ctx.Done(): return t.ctx.Err()], then the deferred
    [t.wg.Done()]. *)
Definition select_done (s : System) : option System :=
  match consumer s with
  | CSelect =>
      if ctx_done (target s) then
        Some (mkSystem (set_wg (wg (target s) - 1) (target s)) CReturned (receiver s)
                       (stopper s) (callbacks s) (output s)
                       (trace s ++ [EvLoopExit]))
      else None
  | _ => None
  end.

(** The receive on [t.msgs]: the head of the buffer if there is one,
    otherwise the handle of the blocked callback [i]. *)
Definition chan_recv (i : nat) (s : System) : option (Message * Chan * list Message) :=
  match buf (msgs (target s)) with
  | m :: rest => Some (m, mkChan (cap (msgs (target s))) rest, callbacks s)
  | [] =>
      match callbacks s !! i with
      | Some m => Some (m, msgs (target s), delete i (callbacks s))
      | None => None
      end
  end.

(** [case m := <-t.msgs] and the body of that case up to the next blocking
    operation: back at the [select] when [format] failed, in
    [send <- entry] otherwise. *)
Definition select_msg (i : nat) (now : Z) (s : System) : option System :=
  match consumer s with
  | CSelect =>
      match chan_recv i s with
      | None => None
      | Some (m, ch, cbs) =>
          let t := set_msgs ch (target s) in
          match format m (cfgLabels (config t)) (UseIncomingTimestamp (config t))
                       (relabelConfig t) now with
          | inl err =>
              Some (mkSystem t CSelect (receiver s) (stopper s) cbs
                      (output s ++ [Log "error" (logger t)
                                        [("event", "error formating log entry");
                                         ("cause", err)]])
                      (trace s ++ [EvRecv m; EvFormat m (inl err); EvAck m]))
          | inr entry =>
              Some (mkSystem t (CSending m entry) (receiver s) (stopper s) cbs
                      (output s)
                      (trace s ++ [EvRecv m; EvFormat m (inr entry)]))
          end
      end
  | _ => None
  end.

(** [send <- entry] completes; then [m.Ack()] and the entries counter. *)
Definition sink_accept (s : System) : option System :=
  match consumer s with
  | CSending m entry =>
      let t := set_handler (Chan_send entry (handler (target s))) (target s) in
      let t := set_metrics (inc_gcplogEntries (ProjectID (config t)) (metrics t)) t in
      Some (mkSystem t CSelect (receiver s) (stopper s) (callbacks s) (output s)
                     (trace s ++ [EvSend m entry; EvAck m]))
  | _ => None
  end.

(** The client calls [func(ctx, m) { t.msgs <- m }], which blocks. *)
Definition deliver (m : Message) (s : System) : option System :=
  match receiver s with
  | RReceiving =>
      Some (mkSystem (target s) (consumer s) (receiver s) (stopper s)
                     (callbacks s ++ [m]) (output s) (trace s))
  | _ => None
  end.

(** A blocked callback completes its send without a receiver: only
    possible while the buffer has room. *)
Definition callback_buffered (i : nat) (s : System) : option System :=
  match callbacks s !! i with
  | Some m =>
      let ch := msgs (target s) in
      if bool_decide (length (buf ch) < cap ch)%nat then
        Some (mkSystem (set_msgs (mkChan (cap ch) (buf ch ++ [m])) (target s))
                       (consumer s) (receiver s) (stopper s)
                       (delete i (callbacks s)) (output s) (trace s))
      else None
  | None => None
  end.

(** [if err != nil { ... }] after [sub.Receive]: log, count, set the gauge. *)
Definition report_receive_error (err : option error) (now : Z) (s : System) : System :=
  match err with
  | Some e =>
      let t := target s in
      mkSystem
        (set_metrics
           (set_LastSuccessScrape (ProjectID (config t)) (Subscription (config t)) now
              (inc_gcplogErrors (ProjectID (config t)) (metrics t))) t)
        (consumer s) (receiver s) (stopper s) (callbacks s)
        (output s ++ [Log "error" (logger t)
                          [("msg", "failed to receive pubsub messages");
                           ("error", e)]])
        (trace s)
  | None => s
  end.

(** [sub.Receive] returns [err]; the rest of the goroutine, with the
    deferred [t.cancel()] last. *)
Definition receive_return (err : option error) (now : Z) (s : System) : option System :=
  match receiver s with
  | RReceiving =>
      let s1 := report_receive_error err now s in
      Some (mkSystem (cancel (target s1)) (consumer s1) RReturned (stopper s1)
                     (callbacks s1) (output s1)
                     (trace s1 ++ [EvReceiveReturn err; EvCancel]))
  | _ => None
  end.

(** [Stop] up to its blocking operation: [t.cancel()]. *)
Definition stop_call (s : System) : option System :=
  match stopper s with
  | SIdle n =>
      Some (mkSystem (cancel (target s)) (consumer s) (receiver s) (SWaiting n)
                     (callbacks s) (output s) (trace s ++ [EvCancel]))
  | SWaiting _ => None
  end.

(** [t.wg.Wait()] returns once the counter is zero; then
    [t.handler.Stop()] and [return nil]. *)
Definition stop_join (s : System) : option System :=
  match stopper s with
  | SWaiting n =>
      if bool_decide (wg (target s) = 0%Z) then
        Some (mkSystem (set_handler (Stop_handler (handler (target s))) (target s))
                       (consumer s) (receiver s) (SIdle (S n))
                       (callbacks s) (output s)
                       (trace s ++ [EvWaitReturn; EvHandlerStop; EvStopReturn]))
      else None
  | SIdle _ => None
  end.

Definition step (a : Action) (s : System) : option System :=
  match a with
  | RunStart => run_start s
  | SelectDone => select_done s
  | SelectMsg i now => select_msg i now s
  | SinkAccept => sink_accept s
  | Deliver m => deliver m s
  | CallbackBuffered i => callback_buffered i s
  | ReceiveReturn err now => receive_return err now s
  | StopCall => stop_call s
  | StopJoin => stop_join s
  end.

(** A schedule runs as long as each of its actions is enabled. *)
Fixpoint exec (sched : list Action) (s : System) : option System :=
  match sched with
  | [] => Some s
  | a :: rest =>
      match step a s with
      | Some s' => exec rest s'
      | None => None
      end
  end.

(** [Stop] seen from its caller while no other goroutine moves: [None] when
    it stays blocked in [t.wg.Wait()]. *)
Definition Stop (t : pullTarget) : option (option error * pullTarget) :=
  let t := cancel t in
  if bool_decide (wg t = 0%Z) then
    Some (None, set_handler (Stop_handler (handler t)) t)
  else None.

Definition Type_ (t : pullTarget) : TargetType := GcplogTargetType.
Definition Ready (t : pullTarget) : bool := true.
Definition DiscoveredLabels (t : pullTarget) : LabelSet := ∅.
Definition Labels (t : pullTarget) : LabelSet := cfgLabels (config t).
Definition Details (t : pullTarget) : any := any_nil.

#[export] Instance pullTarget_Target : Target pullTarget :=
  {| target_Type := Type_;
     target_DiscoveredLabels := DiscoveredLabels;
     target_Labels := Labels;
     target_Ready := Ready;
     target_Details := Details |}.

(** Counting events of one handle in a trace. *)
Definition is_recv (m : Message) (ev : Event) : bool :=
  match ev with EvRecv m' => bool_decide (m' = m) | _ => false end.

Definition is_format (m : Message) (ev : Event) : bool :=
  match ev with EvFormat m' _ => bool_decide (m' = m) | _ => false end.

Definition is_format_err (m : Message) (ev : Event) : bool :=
  match ev with EvFormat m' (inl _) => bool_decide (m' = m) | _ => false end.

Definition is_send (m : Message) (ev : Event) : bool :=
  match ev with EvSend m' _ => bool_decide (m' = m) | _ => false end.

Definition is_ack (m : Message) (ev : Event) : bool :=
  match ev with EvAck m' => bool_decide (m' = m) | _ => false end.

Definition is_any_recv (ev : Event) : bool :=
  match ev with EvRecv _ => true | _ => false end.

Definition is_any_ack (ev : Event) : bool :=
  match ev with EvAck _ => true | _ => false end.

Definition count (p : Event -> bool) (tr : list Event) : nat :=
  length (List.filter p tr).

(** 1 when the consumer holds [m] in [send <- entry], 0 otherwise. *)
Definition sending (m : Message) (c : Consumer) : nat :=
  match c with
  | CSending m' _ => if bool_decide (m' = m) then 1 else 0
  | _ => 0
  end.

(** 1 when the consumer holds some handle in [send <- entry]. *)
Definition holding (c : Consumer) : nat :=
  match c with CSending _ _ => 1 | _ => 0 end.

Definition in_loop (c : Consumer) : bool :=
  match c with CSelect | CSending _ _ => true | _ => false end.

(** Every acknowledgment in a trace comes right after the submission
    attempt of the same handle: the completed send of its entry, or the
    failed translation. *)
Definition ack_after_attempt (tr : list Event) : Prop :=
  forall pre post m,
    tr = pre ++ EvAck m :: post ->
    (exists pre' entry, pre = pre' ++ [EvSend m entry])
    \/ (exists pre' err, pre = pre' ++ [EvFormat m (inl err)]).

(** What holds of the shared state whatever the schedule. *)
Record Inv (s : System) : Prop := mkInv {
  inv_cap : cap (msgs (target s)) = 0%nat;
  inv_buf : buf (msgs (target s)) = [];
  inv_wg : wg (target s) = if in_loop (consumer s) then 1%Z else 0%Z;
  inv_receiver : receiver s = RNotStarted <-> consumer s = CSpawned;
  inv_callbacks : receiver s = RNotStarted -> callbacks s = [];
  inv_returned : receiver s = RReturned -> ctx_done (target s) = true;
  inv_exited : consumer s = CReturned -> ctx_done (target s) = true;
  inv_stopping : stopper s <> SIdle 0 -> ctx_done (target s) = true }.

(** What holds of the events of each handle whatever the schedule. *)
Record TraceInv (s : System) : Prop := mkTraceInv {
  tr_recv_ack : forall m,
    count (is_recv m) (trace s)
    = (count (is_ack m) (trace s) + sending m (consumer s))%nat;
  tr_format : forall m,
    count (is_format m) (trace s) = count (is_recv m) (trace s);
  tr_attempt : forall m,
    (count (is_send m) (trace s) + count (is_format_err m) (trace s))%nat
    = count (is_ack m) (trace s);
  tr_order : ack_after_attempt (trace s);
  tr_held :
    count is_any_recv (trace s)
    = (count is_any_ack (trace s) + holding (consumer s))%nat }.

(** The reaction to [sub.Receive] returning, taken without regard to what
    it returned: a line is logged, the error counter of the project goes
    up by one, the gauge is set to the current time and the context is
    cancelled. *)
Definition reports_receive_exit (now : Z) (s s' : System) : Prop :=
  let c := config (target s) in
  (exists l, output s' = output s ++ [l])
  /\ vec_get (ProjectID c) (gcplogErrors (metrics (target s')))
     = S (vec_get (ProjectID c) (gcplogErrors (metrics (target s))))
  /\ gcplogTargetLastSuccessScrape (metrics (target s'))
       !! (ProjectID c, Subscription c) = Some now
  /\ ctx_done (target s') = true.

Definition receive_exit_always_reported (s : System) : Prop :=
  forall err now,
    exists s', step (ReceiveReturn err now) s = Some s'
               /\ reports_receive_exit now s s'.

(** The reaction of the consumer to [sub.Receive] returning, taken without
    regard to where the consumer is: the loop can end without anything
    from the sink's reader. *)
Definition receive_exit_ends_loop (s : System) : Prop :=
  forall err now s',
    step (ReceiveReturn err now) s = Some s' ->
    exists sched s'',
      (SinkAccept ∉ sched)
      /\ exec sched s' = Some s''
      /\ consumer s'' = CReturned.

(** The steps of the loop of [run]. *)
Definition is_consumer_step (a : Action) : bool :=
  match a with
  | SelectDone | SelectMsg _ _ | SinkAccept => true
  | _ => false
  end.

Definition consumer_steps (sched : list Action) : nat :=
  length (List.filter is_consumer_step sched).

(** How many steps the loop can still take once nothing is delivered any
    more: for each blocked callback the reception of its handle and the
    completion of its send, the completion of a send in progress, and the
    exit. *)
Definition remaining_steps (s : System) : nat :=
  match consumer s with
  | CReturned => 0
  | CSelect => 2 * length (callbacks s) + 1
  | CSending _ _ | CSpawned => 2 * length (callbacks s) + 2
  end.

(** A second [Stop] that is a no-op beyond the first: it returns what the
    first returned and leaves the target, with its sink, as the first left
    it. *)
Definition Stop_again_is_noop (t : pullTarget) : Prop :=
  forall r t1, Stop t = Some (r, t1) -> Stop t1 = Some (r, t1).

End PullTarget.
End Pull.


(** ** Concrete collaborators, for running the definitions *)

Module Sample.

(** A sink that queues what it is sent and remembers that it was stopped. *)
Record ListSink := mkSink {
  queue : list Entry;
  stopped : bool }.

#[export] Instance ListSink_handler : EntryHandler ListSink :=
  {| Chan_send e h := mkSink (queue h ++ [e]) (stopped h);
     Stop_handler h := mkSink (queue h) true |}.

(** A server that keeps its configuration and routes; it refuses a
    negative port. *)
Record SimpleServer := mkServer {
  srv_config : ServerConfig;
  srv_routes : list (string * string);
  srv_down : bool }.

#[export] Instance SimpleServer_server : HTTPServer SimpleServer :=
  {| server_New cfg :=
       if (HTTPListenPort cfg <? 0)%Z then inl "invalid listen port"
       else inr (mkServer cfg [] false);
     server_Route p m s := mkServer (srv_config s) (srv_routes s ++ [(p, m)]) (srv_down s);
     server_Shutdown s := mkServer (srv_config s) (srv_routes s) true |}.

(** [model.IsValidMetricName] of prometheus/common: letters, underscore
    and colon anywhere, digits after the first character, not empty. *)
Definition metric_char (first : bool) (c : Ascii.ascii) : bool :=
  let n := Ascii.nat_of_ascii c in
  (Nat.leb 97 n && Nat.leb n 122) || (Nat.leb 65 n && Nat.leb n 90)
  || Nat.eqb n 95 || Nat.eqb n 58
  || (negb first && Nat.leb 48 n && Nat.leb n 57).

Fixpoint metric_chars (first : bool) (s : string) : bool :=
  match s with
  | EmptyString => true
  | String c rest => metric_char first c && metric_chars false rest
  end.

Definition IsValidMetricName (s : string) : bool :=
  match s with
  | EmptyString => false
  | _ => metric_chars true s
  end.

Definition MergeWithDefaults (c : ServerConfig) : error + ServerConfig :=
  inr (mkServerConfig (if (HTTPListenPort c =? 0)%Z then 80%Z else HTTPListenPort c)
                      (MetricsNamespace c) (RegisterInstrumentation c) (ServerLog c)).

(** A push payload reduced to its text; the empty body does not parse, a
    payload starting with [!] is dropped by the translator. *)
Definition json_Unmarshal (bs : string) : error + string :=
  match bs with
  | EmptyString => inl "unexpected end of JSON input"
  | _ => inr bs
  end.

Definition translate (pm : string) (labels : LabelSet) (useTs : bool)
    (relabel : list RelabelConfig) (tenant : string) : error + Entry :=
  match pm with
  | String "!" _ => inl "dropped by relabeling"
  | _ => inr (mkEntry labels 0 pm)
  end.

Definition labels0 : LabelSet := {["job" := "gcplog"]}.

Definition config0 : GcplogTargetConfig :=
  mkConfig "my-project" "my-sub" labels0 false
           (mkServerConfig 8080 "" true []).

Definition metrics0 : Metrics := mkMetrics ∅ ∅ ∅ 0 0.

Definition world0 : Push.World := Push.mkWorld [] [] 0.

Definition response0 : Push.ResponseWriter := Push.mkResponse None ∅ "".

Definition push0 : Push.pushTarget (H := ListSink) (Srv := SimpleServer) :=
  Push.mkPushTarget [("component", "gcp_push")] (mkSink [] false) config0 "job1"
                    (Some (mkServer (Server config0) [("/gcp/api/v1/push", "POST")] false))
                    metrics0 [].

Definition request_of (bs : string) : Push.Request :=
  Push.mkRequest (inr bs) (fun _ => "").

(** A translator for handles: empty data is malformed. *)
Definition format (m : Pull.Message) (labels : LabelSet) (useTs : bool)
    (relabel : list RelabelConfig) (now : Z) : error + Entry :=
  match Pull.Data m with
  | EmptyString => inl "empty log line"
  | line => inr (mkEntry labels (if useTs then Pull.PublishTime m else now) line)
  end.

Definition pubsub_NewClient (project : string) : error + unit :=
  match project with
  | EmptyString => inl "missing project"
  | _ => inr tt
  end.

Definition msg_hello : Pull.Message := Pull.mkMessage "1" "hello" ∅ 1704067200.
Definition msg_bad : Pull.Message := Pull.mkMessage "2" "" ∅ 1704067201.

Definition pull0 : Pull.System (H := ListSink) (Client := unit) :=
  Pull.mkSystem
    (Pull.mkPullTarget metrics0 [] (mkSink [] false) config0 [] "job1" false 0 tt
                       (Pull.make_chan 0))
    Pull.CSpawned Pull.RNotStarted (Pull.SIdle 0) [] [] [].

(** [pull0] once [run] has reached its loop. *)
Definition receiving0 : Pull.System (H := ListSink) (Client := unit) :=
  Pull.mkSystem
    (Pull.mkPullTarget metrics0 [] (mkSink [] false) config0 [] "job1" false 1 tt
                       (Pull.make_chan 0))
    Pull.CSelect Pull.RReceiving (Pull.SIdle 0) [] [] [].

(** What the push constructor returns for [job1]. *)
Definition built : (error + Push.pushTarget (H := ListSink) (Srv := SimpleServer))
                   * Push.World :=
  Push.newPushTarget IsValidMetricName MergeWithDefaults []
                     metrics0 [] (mkSink [] false) "job1" config0 [] world0.

Definition built_target : Push.pushTarget (H := ListSink) (Srv := SimpleServer) :=
  match fst built with
  | inr ht => ht
  | inl _ => push0
  end.

(** Two schedules: one handle sent and one failing to translate; and a
    handle waiting for the sink while another is offered. *)
Definition sched_two : list Pull.Action :=
  [Pull.RunStart; Pull.Deliver msg_hello; Pull.SelectMsg 0 5; Pull.SinkAccept;
   Pull.Deliver msg_bad; Pull.SelectMsg 0 6].

Definition sched_waiting : list Pull.Action :=
  [Pull.RunStart; Pull.Deliver msg_hello; Pull.SelectMsg 0 5; Pull.Deliver msg_bad].

(** The system after a schedule ([pull0] itself if it cannot run). *)
Definition after (sched : list Pull.Action) : Pull.System (H := ListSink) (Client := unit) :=
  default pull0 (Pull.exec format sched pull0).

(** The consumer waiting for the sink to take the entry of [msg_hello]. *)
Definition sched_sending : list Pull.Action :=
  [Pull.RunStart; Pull.Deliver msg_hello; Pull.SelectMsg 0 5].

(** A sink and a server that count how often they are closed. *)
Record CountingSink := mkCounting {
  taken : list Entry;
  stops : nat }.

#[export] Instance CountingSink_handler : EntryHandler CountingSink :=
  {| Chan_send e h := mkCounting (taken h ++ [e]) (stops h);
     Stop_handler h := mkCounting (taken h) (S (stops h)) |}.

Record CountingServer := mkCountingServer {
  routes : list (string * string);
  shutdowns : nat }.

#[export] Instance CountingServer_server : HTTPServer CountingServer :=
  {| server_New cfg := inr (mkCountingServer [] 0);
     server_Route p m s := mkCountingServer (routes s ++ [(p, m)]) (shutdowns s);
     server_Shutdown s := mkCountingServer (routes s) (S (shutdowns s)) |}.




End Sample.


(** ** Rule-group validation: [ValidateGroups] and its helpers *)

Module Ruler.

(** [rulefmt.RuleNode], with the [yaml.Node] fields reduced to their
    [Value]; [Record_] is the field [Record]. *)
Record RuleNode := mkRuleNode {
  Record_ : string;
  Alert : string;
  Expr : string;
  For : Z;
  Labels : gmap string string;
  Annotations : gmap string string }.

(** [rulefmt.RuleGroup], the fields the validation reads. *)
Record RuleGroup := mkRuleGroup {
  Name : string;
  Rules : list RuleNode }.

(** The errors the validation builds, one constructor per message:
    - [EmptyGroupName i]: group %d: Groupname must not be empty
    - [RepeatedGroupName n]: groupname: "%s" is repeated in the same file
    - [BothRecordAndAlert]: only one of 'record' and 'alert' must be set
    - [NoRecordNorAlert]: one of 'record' or 'alert' must be set
    - [ExprMissing]: field 'expr' must be set in rule
    - [ExprUnparseable record group cause]: could not parse expression for
      record '%s' in group '%s', wrapping the parser's error
    - [AnnotationsInRecording], [ForInRecording]: invalid field
      'annotations' / 'for' in recording rule
    - [InvalidRecordName n]: invalid recording rule name: %s
    - [InvalidLabelName k], [InvalidLabelValue v],
      [InvalidAnnotationName k]: invalid label name / label value /
      annotation name: %s
    - [LabelTemplate k cause], [AnnotationTemplate k cause]: label %q /
      annotation %q, wrapping the template's error
    - [Wrapped identifier e]: [errors.Wrap(e, identifier)]
    - [Foreign cause]: an error of a collaborator, as it is. *)
Inductive RuleError :=
| EmptyGroupName (i : nat)
| RepeatedGroupName (name : string)
| BothRecordAndAlert
| NoRecordNorAlert
| ExprMissing
| ExprUnparseable (record group : string) (cause : error)
| AnnotationsInRecording
| ForInRecording
| InvalidRecordName (name : string)
| InvalidLabelName (k : string)
| InvalidLabelValue (v : string)
| InvalidAnnotationName (k : string)
| LabelTemplate (k : string) (cause : error)
| AnnotationTemplate (k : string) (cause : error)
| Wrapped (identifier : string) (e : RuleError)
| Foreign (cause : error).

#[global] Instance RuleError_eq_dec : EqDecision RuleError.
Proof. solve_decision. Defined.

(** [model.MetricNameLabel]. *)
Definition MetricNameLabel : string := "__name__".

(** The three definitions every template is prefixed with. *)
Definition defs : list string :=
  ["{{$labels := .Labels}}";
   "{{$externalLabels := .ExternalLabels}}";
   "{{$value := .Value}}"].

(** Errors raised for the group itself, as opposed to one of its rules. *)
Definition is_empty_name_error (e : RuleError) : bool :=
  match e with EmptyGroupName _ => true | _ => false end.

Definition is_repeated_name_error (e : RuleError) : bool :=
  match e with RepeatedGroupName _ => true | _ => false end.

Definition is_group_error (e : RuleError) : bool :=
  is_empty_name_error e || is_repeated_name_error e.

Section Validation.

(** Collaborators declared outside the file: the LogQL parser, the
    validity checks of prometheus/common and the template expander's
    [ParseTest], given the template text and the template name. *)
Variable ParseExpr : string -> option error.
Variable IsValidMetricName : string -> bool.
Variable LabelName_IsValid : string -> bool.
Variable LabelValue_IsValid : string -> bool.
Variable ParseTest : string -> string -> option error.

(** The order in which a [range] visits a map is not specified: it is an
    argument, [order1] for the loops of [validateRuleNode] and [order2] for
    those of [testTemplateParsing]. *)
Definition MapOrder := gmap string string -> list (string * string).

(** An order visits exactly the entries of the map. *)
Definition visits_entries (order : MapOrder) : Prop :=
  forall m k v, (k, v) ∈ order m <-> m !! k = Some v.

(** [parseTest] of [testTemplateParsing]. *)
Definition parseTest (rl : RuleNode) (text : string) : option error :=
  ParseTest (String.concat "" (defs ++ [text])) ("__alert_" +:+ Alert rl).

Definition testTemplateParsing (order2 : MapOrder) (rl : RuleNode) : list RuleError :=
  if bool_decide (Alert rl = "") then []
  else
    omap (fun '(k, val) => LabelTemplate k <$> parseTest rl val) (order2 (Labels rl))
    ++ omap (fun '(k, val) => AnnotationTemplate k <$> parseTest rl val)
            (order2 (Annotations rl)).

(** The loop over the labels, stopping at the first error. *)
Fixpoint check_labels (kvs : list (string * string)) : option RuleError :=
  match kvs with
  | [] => None
  | (k, v) :: rest =>
      if negb (LabelName_IsValid k) || bool_decide (k = MetricNameLabel)
      then Some (InvalidLabelName k)
      else if negb (LabelValue_IsValid v) then Some (InvalidLabelValue v)
      else check_labels rest
  end.

(** The loop over the annotation names. *)
Fixpoint check_annotations (kvs : list (string * string)) : option RuleError :=
  match kvs with
  | [] => None
  | (k, _) :: rest =>
      if negb (LabelName_IsValid k) then Some (InvalidAnnotationName k)
      else check_annotations rest
  end.

(** The checks made only for a recording rule. *)
Definition check_recording (r : RuleNode) : option RuleError :=
  if bool_decide (Record_ r = "") then None
  else if bool_decide (Annotations r = ∅) then
    if bool_decide (For r = 0%Z) then
      if IsValidMetricName (Record_ r) then None
      else Some (InvalidRecordName (Record_ r))
    else Some ForInRecording
  else Some AnnotationsInRecording.

Definition check_expr (r : RuleNode) (groupName : string) : option RuleError :=
  if bool_decide (Expr r = "") then Some ExprMissing
  else ExprUnparseable (Record_ r) groupName <$> ParseExpr (Expr r).

(** [validateRuleNode]: [None] is the nil error. *)
Definition validateRuleNode (order1 order2 : MapOrder) (r : RuleNode)
    (groupName : string) : option RuleError :=
  if bool_decide (Record_ r <> "") && bool_decide (Alert r <> "")
  then Some BothRecordAndAlert
  else if bool_decide (Record_ r = "") && bool_decide (Alert r = "")
  then Some NoRecordNorAlert
  else
    match check_expr r groupName with
    | Some e => Some e
    | None =>
      match check_recording r with
      | Some e => Some e
      | None =>
        match check_labels (order1 (Labels r)) with
        | Some e => Some e
        | None =>
          match check_annotations (order1 (Annotations r)) with
          | Some e => Some e
          | None => head (testTemplateParsing order2 r)
          end
        end
      end
    end.

(** The body of the loop of [ValidateGroups] from group number [i] on,
    with the names seen so far in [set]. *)
Fixpoint ValidateGroups_from (order1 order2 : MapOrder) (i : nat)
    (set : gset string) (grps : list RuleGroup) : list RuleError :=
  match grps with
  | [] => []
  | g :: rest =>
      (if bool_decide (Name g = "") then [EmptyGroupName i] else [])
      ++ (if bool_decide (Name g ∈ set) then [RepeatedGroupName (Name g)] else [])
      ++ omap (fun r => validateRuleNode order1 order2 r (Name g)) (Rules g)
      ++ ValidateGroups_from order1 order2 (S i) ({[Name g]} ∪ set) rest
  end.

Definition ValidateGroups (order1 order2 : MapOrder) (grps : list RuleGroup)
    : list RuleError :=
  ValidateGroups_from order1 order2 0 ∅ grps.

(** [MultiTenantManager.ValidateRuleGroup]. *)
Definition ValidateRuleGroup (order1 order2 : MapOrder) (grp : RuleGroup)
    : list RuleError :=
  ValidateGroups order1 order2 [grp].

(** [GroupLoader.parseRules]; [yaml_Decode] is the strict YAML decoding of
    the content into rule groups. *)
Variable yaml_Decode : string -> error + list RuleGroup.

Definition parseRules (order1 order2 : MapOrder) (content : string)
    : option (list RuleGroup) * list RuleError :=
  match yaml_Decode content with
  | inl err => (None, [Foreign err])
  | inr groups => (Some groups, ValidateGroups order1 order2 groups)
  end.

(** [GroupLoader.Load]; [ReadFile] is [ioutil.ReadFile]. *)
Variable ReadFile : string -> error + string.

Definition Load (order1 order2 : MapOrder) (identifier : string)
    : option (list RuleGroup) * list RuleError :=
  match ReadFile identifier with
  | inl err => (None, [Wrapped identifier (Foreign err)])
  | inr b =>
      let '(rgs, errs) := parseRules order1 order2 b in
      (rgs, Wrapped identifier <$> errs)
  end.

(** The rules of a list of groups that do not validate. *)
Definition invalid_rules (order1 order2 : MapOrder) (grps : list RuleGroup)
    : list RuleError :=
  grps ≫= fun g => omap (fun r => validateRuleNode order1 order2 r (Name g)) (Rules g).

(** What [validateRuleNode] requires of a rule. *)
Definition rule_ok (r : RuleNode) : Prop :=
  (Record_ r = "" <-> Alert r <> "")
  /\ Expr r <> "" /\ ParseExpr (Expr r) = None
  /\ (Record_ r <> "" ->
      Annotations r = ∅ /\ For r = 0%Z /\ IsValidMetricName (Record_ r) = true)
  /\ (forall k v, Labels r !! k = Some v ->
        LabelName_IsValid k = true /\ k <> MetricNameLabel
        /\ LabelValue_IsValid v = true)
  /\ (forall k v, Annotations r !! k = Some v -> LabelName_IsValid k = true)
  /\ (Alert r <> "" ->
      forall k v, Labels r !! k = Some v \/ Annotations r !! k = Some v ->
                  parseTest r v = None).

End Validation.
End Ruler.


(** ** Reading traces of the pull ingress *)

Module PullTrace.
Import Pull.

Definition is_any_send (ev : Event) : bool :=
  match ev with EvSend _ _ => true | _ => false end.

Definition is_any_format_err (ev : Event) : bool :=
  match ev with EvFormat _ (inl _) => true | _ => false end.

Definition is_receive_return (ev : Event) : bool :=
  match ev with EvReceiveReturn _ => true | _ => false end.

Definition is_receive_error (ev : Event) : bool :=
  match ev with EvReceiveReturn (Some _) => true | _ => false end.

Definition is_loop_exit (ev : Event) : bool :=
  match ev with EvLoopExit => true | _ => false end.

Definition is_handler_stop (ev : Event) : bool :=
  match ev with EvHandlerStop => true | _ => false end.

Definition is_stop_return (ev : Event) : bool :=
  match ev with EvStopReturn => true | _ => false end.

Section Replay.
Context {H : Type} `{EntryHandler H}.

(** What one event does to the sink: a completed send hands it the entry,
    [t.handler.Stop()] stops it, nothing else touches it. *)
Definition sink_event (h : H) (ev : Event) : H :=
  match ev with
  | EvSend _ entry => Chan_send entry h
  | EvHandlerStop => Stop_handler h
  | _ => h
  end.

Definition replay (tr : list Event) (h : H) : H := foldl sink_event h tr.

End Replay.

(** Every [EvLoopExit] of a trace has an [EvCancel] before it. *)
Definition exit_after_cancel (tr : list Event) : Prop :=
  forall pre post, tr = pre ++ EvLoopExit :: post -> EvCancel ∈ pre.

(** Every [EvHandlerStop] of a trace comes right after the return of the
    join, which itself has an [EvCancel] before it. *)
Definition stop_after_join (tr : list Event) : Prop :=
  forall pre post,
    tr = pre ++ EvHandlerStop :: post ->
    exists pre', pre = pre' ++ [EvWaitReturn] /\ EvCancel ∈ pre'.

End PullTrace.


(** ** Concrete collaborators for the rule validation *)

Module RulerSample.
Import Ruler.

(** A stand-in for the LogQL parser: a query parses when it opens with a
    stream selector. *)
Definition ParseExpr (q : string) : option error :=
  match q with
  | String "{" _ => None
  | _ => Some "syntax error: unexpected IDENTIFIER"
  end.

(** Label names: letters, digits after the first character, underscore. *)
Definition label_char (first : bool) (c : Ascii.ascii) : bool :=
  let n := Ascii.nat_of_ascii c in
  (Nat.leb 97 n && Nat.leb n 122) || (Nat.leb 65 n && Nat.leb n 90)
  || Nat.eqb n 95
  || (negb first && Nat.leb 48 n && Nat.leb n 57).

Fixpoint label_chars (first : bool) (s : string) : bool :=
  match s with
  | EmptyString => true
  | String c rest => label_char first c && label_chars false rest
  end.

Definition LabelName_IsValid (s : string) : bool :=
  match s with
  | EmptyString => false
  | _ => label_chars true s
  end.

Definition LabelValue_IsValid (v : string) : bool := true.

(** A stand-in for the template expander: the only template it refuses
    is the one consisting of an unclosed action. *)
Definition ParseTest (text name : string) : option error :=
  if String.eqb text (String.concat "" (defs ++ ["{{"])) then Some "unclosed action"
  else None.

(** One possible order of a map's entries. *)
Definition order : MapOrder := map_to_list.

Definition yaml_Decode (content : string) : error + list RuleGroup :=
  inl "yaml: unsupported".

Definition ReadFile (identifier : string) : error + string :=
  inl "open: no such file or directory".

Definition alert_rule : RuleNode :=
  mkRuleNode "" "HighErrors" "{app=~.+} |= error" 300
             {["severity" := "page"]} {["summary" := "too many errors"]}.

Definition record_rule : RuleNode :=
  mkRuleNode "job:errors:rate5m" "" "{app=~.+}" 0 ∅ ∅.

Definition both_rule : RuleNode :=
  mkRuleNode "r" "a" "{app=~.+}" 0 ∅ ∅.

Definition groups0 : list RuleGroup :=
  [mkRuleGroup "alerts" [alert_rule];
   mkRuleGroup "" [record_rule; both_rule];
   mkRuleGroup "alerts" []].

End RulerSample.


(** * Properties *)

(** ** Push ingress *)

Section PushProperties.
Context {H : Type} `{EntryHandler H} {Srv : Type} `{HTTPServer Srv}.
Context {PushMessage : Type}.
Variable json_Unmarshal : string -> error + PushMessage.
Variable translate :
  PushMessage -> LabelSet -> bool -> list RelabelConfig -> string -> error + Entry.
Variable IsValidMetricName : string -> bool.
Variable MergeWithDefaults : ServerConfig -> error + ServerConfig.
Variable util_log_Logger : Logger.

Import Push.

Local Abbreviation pushTarget := (Push.pushTarget (H := H) (Srv := Srv)).
Local Abbreviation push := (Push.push json_Unmarshal translate).
Local Abbreviation run := (Push.run IsValidMetricName util_log_Logger).
Local Abbreviation push_failure := (Push.push_failure json_Unmarshal translate).
Local Abbreviation newPushTarget :=
  (Push.newPushTarget IsValidMetricName MergeWithDefaults util_log_Logger).

Lemma http_Error_status msg code rw :
  status rw = None -> status (http_Error msg code rw) = Some code.
Proof. intros Hs. unfold http_Error, Write, WriteHeader. simpl. by rewrite Hs. Qed.

Lemma push_reject_spec msg err (h : pushTarget) rw w :
  status rw = None ->
  exists h' rw' w',
    push_reject msg err h rw w = Returned h' rw' w'
    /\ status rw' = Some StatusBadRequest
    /\ gcpPushErrors (metrics h') = S (gcpPushErrors (metrics h))
    /\ gcpPushEntries (metrics h') = gcpPushEntries (metrics h)
    /\ handler h' = handler h.
Proof.
  intros Hs. unfold push_reject. eexists _, _, _. split; [reflexivity|].
  split; [by apply http_Error_status|]. by simpl.
Qed.

(** C2.  A push request whose body cannot be read, whose JSON payload does
    not parse, or whose translation fails is answered 400 Bad Request; the
    error counter goes up by exactly one, the success counter does not
    move, and the sink is left as it was (nothing is submitted), whether or
    not the sink would have taken an entry. *)
Theorem push_failure_bad_request (sink_accepts : bool) (h : pushTarget)
    (rw : ResponseWriter) (r : Request) (w : World) (err : error) :
  status rw = None ->
  push_failure h r err ->
  exists h' rw' w',
    push sink_accepts h rw r w = Returned h' rw' w'
    /\ status rw' = Some 400%Z
    /\ gcpPushErrors (metrics h') = S (gcpPushErrors (metrics h))
    /\ gcpPushEntries (metrics h') = gcpPushEntries (metrics h)
    /\ handler h' = handler h.
Proof.
  intros Hs Hf. unfold Push.push.
  destruct Hf as [e He | bs e Hb He | bs pm e Hb Hp He].
  - rewrite He. by apply push_reject_spec.
  - rewrite Hb, He. by apply push_reject_spec.
  - rewrite Hb, Hp, He. by apply push_reject_spec.
Qed.

(** C4.  A push request that translates to [entry]: when the sink takes
    the entry, the handler returns with exactly that one entry sent to the
    sink, status 204 No Content and the success counter up by exactly one;
    while the sink does not take it, the handler is blocked in the send
    with the response unwritten, the counters and the sink untouched. *)
Theorem push_success_no_content (h : pushTarget) (rw : ResponseWriter)
    (r : Request) (w : World) bs pushMessage (entry : Entry) :
  status rw = None ->
  Body r = inr bs ->
  json_Unmarshal bs = inr pushMessage ->
  translate pushMessage (cfgLabels (config h)) (UseIncomingTimestamp (config h))
            (relabelConfigs h) (Header_Get r "X-Scope-OrgID") = inr entry ->
  (exists h' rw' w',
      push true h rw r w = Returned h' rw' w'
      /\ handler h' = Chan_send entry (handler h)
      /\ status rw' = Some 204%Z
      /\ gcpPushEntries (metrics h') = S (gcpPushEntries (metrics h))
      /\ gcpPushErrors (metrics h') = gcpPushErrors (metrics h))
  /\ (exists w', push false h rw r w = BlockedInSend entry h rw w').
Proof.
  intros Hs Hb Hp Ht. unfold Push.push. rewrite Hb, Hp, Ht. split.
  - eexists _, _, _. split; [reflexivity|]. simpl.
    unfold WriteHeader. rewrite Hs. by simpl.
  - by eexists.
Qed.

(** C10.  When the prefix followed by the job name is not a valid metric
    name, [newPushTarget] returns an error and the world has no server
    more than before: none built by [server.New], none serving. *)
Theorem newPushTarget_invalid_job_name (metrics : Metrics) (logger : Logger)
    (handler : H) (jobName : string) (config : GcplogTargetConfig)
    (relabel : list RelabelConfig) (w : World) :
  IsValidMetricName ("promtail_gcp_push_target_" +:+ jobName) = false ->
  exists err w',
    newPushTarget metrics logger handler jobName config relabel w = (inl err, w')
    /\ created w' = created w
    /\ serving w' = serving w.
Proof.
  intros Hbad. unfold Push.newPushTarget.
  destruct (MergeWithDefaults (Server config)) as [e | merged].
  - by eexists _, _.
  - unfold Push.run. simpl. rewrite Hbad. simpl. by eexists _, _.
Qed.


(** The constructor and the handler leave the label set of the
    configuration alone. *)
Lemma newPushTarget_Labels metrics logger handler jobName config relabel w
    (ht : pushTarget) w' :
  newPushTarget metrics logger handler jobName config relabel w = (inr ht, w') ->
  Labels ht = cfgLabels config.
Proof.
  unfold Push.newPushTarget.
  destruct (MergeWithDefaults (Server config)) as [e | merged]; [done|].
  unfold Push.run. simpl.
  destruct (negb _); [done|].
  destruct (server_New _) as [e | srv]; [done|].
  by intros [= <- <-].
Qed.

Lemma push_reject_frame msg err (h : pushTarget) rw w :
  status rw = None ->
  match push_reject msg err h rw w with
  | Returned h' rw' w' =>
      status rw' = Some 400%Z /\ handler h' = handler h
      /\ gcpPushErrors (metrics h') = S (gcpPushErrors (metrics h))
      /\ gcpPushEntries (metrics h') = gcpPushEntries (metrics h)
      /\ gcplogEntries (metrics h') = gcplogEntries (metrics h)
      /\ gcplogErrors (metrics h') = gcplogErrors (metrics h)
      /\ gcplogTargetLastSuccessScrape (metrics h')
         = gcplogTargetLastSuccessScrape (metrics h)
      /\ config h' = config h /\ server h' = server h
      /\ created w' = created w /\ serving w' = serving w
      /\ length (out w') = S (length (out w))
  | BlockedInSend _ _ _ _ => False
  end.
Proof.
  intros Hs. unfold push_reject.
  split; [by apply http_Error_status|].
  simpl. repeat split. rewrite length_app. simpl. lia.
Qed.

(** X9.  Every call of [push] on a fresh response either returns or is
    blocked in the send.  When it returns, the request is counted exactly
    once: either the status is 204, the sink got one entry and the success
    counter went up by one, or the status is 400, the sink is untouched
    and the error counter went up by one.  In both cases the pull
    counters, the configuration and the server are as before, no server is
    built or started, and one line is logged.  When it is blocked, the
    sink did not accept, and target and response are as before. *)
Theorem push_counts_once (sink_accepts : bool) (h : pushTarget)
    (rw : ResponseWriter) (r : Request) (w : World) :
  status rw = None ->
  match push sink_accepts h rw r w with
  | Returned h' rw' w' =>
      ((status rw' = Some 204%Z
        /\ (exists entry, handler h' = Chan_send entry (handler h))
        /\ gcpPushEntries (metrics h') = S (gcpPushEntries (metrics h))
        /\ gcpPushErrors (metrics h') = gcpPushErrors (metrics h))
       \/ (status rw' = Some 400%Z
           /\ handler h' = handler h
           /\ gcpPushErrors (metrics h') = S (gcpPushErrors (metrics h))
           /\ gcpPushEntries (metrics h') = gcpPushEntries (metrics h)))
      /\ gcplogEntries (metrics h') = gcplogEntries (metrics h)
      /\ gcplogErrors (metrics h') = gcplogErrors (metrics h)
      /\ gcplogTargetLastSuccessScrape (metrics h')
         = gcplogTargetLastSuccessScrape (metrics h)
      /\ config h' = config h /\ server h' = server h
      /\ created w' = created w /\ serving w' = serving w
      /\ length (out w') = S (length (out w))
  | BlockedInSend entry h' rw' w' =>
      sink_accepts = false /\ h' = h /\ rw' = rw
      /\ created w' = created w /\ serving w' = serving w
  end.
Proof.
  clear IsValidMetricName MergeWithDefaults util_log_Logger.
  intros Hs. unfold Push.push.
  destruct (Body r) as [e | bs].
  { pose proof (push_reject_frame "failed to read incoming gcp push request" e h rw w Hs)
      as Hf.
    unfold push_reject in *. simpl in *. intuition. }
  destruct (json_Unmarshal bs) as [e | pm].
  { pose proof (push_reject_frame "failed to unmarshall gcp push request" e h rw w Hs)
      as Hf.
    unfold push_reject in *. simpl in *. intuition. }
  destruct (translate _ _ _ _ _) as [e | entry].
  { pose proof (push_reject_frame "failed to translate gcp push request" e h rw w Hs)
      as Hf.
    unfold push_reject in *. simpl in *. intuition. }
  destruct sink_accepts; simpl.
  - split.
    + left. unfold WriteHeader. rewrite Hs. simpl. split; [done|].
      split; [by eexists | done].
    + repeat split. rewrite length_app. simpl. lia.
  - done.
Qed.

(** X10.  What the push constructor leaves behind.  When it returns an
    error, whatever the cause (the server defaults, the job name or
    [server.New]), no server has been built or started.  When it returns a
    target, the defaults merged, the job name made a valid metric
    namespace and [server.New] succeeded; exactly one server was built and
    started, on the merged port with that namespace and instrumentation
    off, it carries the POST route [/gcp/api/v1/push], and the target keeps
    the handler, metrics, job name and relabel rules it was given. *)
Theorem newPushTarget_outcome (mtr : Metrics) (lgr : Logger) (hdl : H)
    (job : string) (cfg : GcplogTargetConfig) (relabel : list RelabelConfig)
    (w : World) :
  match newPushTarget mtr lgr hdl job cfg relabel w with
  | (inl err, w') => created w' = created w /\ serving w' = serving w
  | (inr ht, w') =>
      exists merged srv,
        MergeWithDefaults (Server cfg) = inr merged
        /\ IsValidMetricName ("promtail_gcp_push_target_" +:+ job) = true
        /\ Server (config ht)
           = mkServerConfig (HTTPListenPort merged)
                            ("promtail_gcp_push_target_" +:+ job) false
                            (log_With util_log_Logger "component" "gcp_push")
        /\ server_New (Server (config ht)) = inr srv
        /\ server ht = Some (server_Route "/gcp/api/v1/push" "POST" srv)
        /\ created w' = created w ++ [Server (config ht)]
        /\ serving w' = S (serving w)
        /\ handler ht = hdl /\ metrics ht = mtr /\ jobName ht = job
        /\ relabelConfigs ht = relabel
        /\ cfgLabels (config ht) = cfgLabels cfg
        /\ logger ht = log_With lgr "component" "gcp_push"
  end.
Proof.
  unfold Push.newPushTarget.
  destruct (MergeWithDefaults (Server cfg)) as [e | merged] eqn:Hm; [done|].
  unfold Push.run. simpl.
  destruct (IsValidMetricName _) eqn:Hv; simpl; [|done].
  destruct (server_New _) as [e | srv] eqn:Hn; simpl; [done|].
  exists merged, srv. by repeat split.
Qed.

End PushProperties.


(** ** Pull ingress *)

Section PullProperties.
Context {H : Type} `{EntryHandler H} {Client : Type}.
Variable pubsub_NewClient : string -> error + Client.
Variable format :
  Pull.Message -> LabelSet -> bool -> list RelabelConfig -> Z -> error + Entry.

Import Pull.

Local Abbreviation System := (Pull.System (H := H) (Client := Client)).
Local Abbreviation pullTarget := (Pull.pullTarget (H := H) (Client := Client)).
Local Abbreviation step := (Pull.step format).
Local Abbreviation exec := (Pull.exec format).
Local Abbreviation newPullTarget := (Pull.newPullTarget pubsub_NewClient).

(** *** Schedules *)

Lemma exec_app sched1 sched2 (s : System) :
  exec (sched1 ++ sched2) s = exec sched1 s ≫= exec sched2.
Proof.
  revert s. induction sched1 as [|a sched1 IH]; intros s; simpl; [done|].
  destruct (step a s); simpl; [apply IH | done].
Qed.

(** A property kept by every step holds after every schedule. *)
Lemma exec_preserves (P : System -> Prop) :
  (forall a s s', P s -> step a s = Some s' -> P s') ->
  forall sched s s', P s -> exec sched s = Some s' -> P s'.
Proof.
  intros Hstep sched. induction sched as [|a sched IH]; intros s s' HP Hex; simpl in Hex.
  - by simplify_eq.
  - destruct (step a s) as [s1|] eqn:Hs; [|done]. eauto.
Qed.

(** Case analysis on an enabled step, with the state taken apart. *)
Ltac bool_hyps :=
  repeat match goal with
         | Hb : bool_decide _ = true |- _ => apply bool_decide_eq_true in Hb
         | Hb : bool_decide _ = false |- _ => apply bool_decide_eq_false in Hb
         end.

Ltac step_inv Hs :=
  match type of Hs with
  | Pull.step _ ?a ?s = Some _ =>
      destruct s as [[? ? ? ? ? ? ? ? ? [? ?]] ? ? ? ? ? ?];
      destruct a; simpl in Hs;
      unfold run_start, select_done, select_msg, sink_accept, deliver,
             callback_buffered, receive_return, report_receive_error,
             stop_call, stop_join, chan_recv in Hs;
      simpl in *; repeat case_match; simplify_eq; bool_hyps; simpl in *
  end.

(** *** Counting *)

Lemma count_app p tr1 tr2 : count p (tr1 ++ tr2) = (count p tr1 + count p tr2)%nat.
Proof. unfold count. by rewrite List.filter_app, length_app. Qed.

Ltac count_simpl :=
  rewrite ?count_app; unfold count in *; simpl in *;
  repeat case_bool_decide; simplify_eq; simpl in *; try lia.

(** *** Order of acknowledgments *)

Lemma ack_after_attempt_app tr1 tr2 :
  ack_after_attempt tr1 -> ack_after_attempt tr2 -> ack_after_attempt (tr1 ++ tr2).
Proof.
  intros H1 H2 pre post m Heq.
  apply List.app_eq_app in Heq as [l [[-> Hl] | [-> Hl]]].
  - destruct l as [|ev l].
    + simpl in Hl. symmetry in Hl.
      destruct (H2 [] post m Hl) as [(p & e & Hp) | (p & e & Hp)];
        by destruct p.
    + simpl in Hl. injection Hl as <- ->.
      exact (H1 pre l m eq_refl).
  - destruct (H2 l post m Hl) as [(p & e & ->) | (p & e & ->)].
    + left. exists (tr1 ++ p), e. by rewrite app_assoc.
    + right. exists (tr1 ++ p), e. by rewrite app_assoc.
Qed.

Lemma ack_after_attempt_nil : ack_after_attempt [].
Proof. intros pre post m Heq. by destruct pre. Qed.

Lemma ack_after_attempt_no_ack tr :
  (forall m, EvAck m ∉ tr) -> ack_after_attempt tr.
Proof.
  intros Hno pre post m ->. exfalso. apply (Hno m).
  apply elem_of_app. right. apply elem_of_cons. by left.
Qed.

Lemma ack_after_attempt_failed m err :
  ack_after_attempt [EvRecv m; EvFormat m (inl err); EvAck m].
Proof.
  intros pre post m' Heq.
  destruct pre as [|e1 [|e2 [|e3 [|e4 pre]]]]; simpl in Heq; simplify_eq.
  right. by exists [EvRecv m'], err.
Qed.

Lemma ack_after_attempt_sent m entry :
  ack_after_attempt [EvSend m entry; EvAck m].
Proof.
  intros pre post m' Heq.
  destruct pre as [|e1 [|e2 [|e3 pre]]]; simpl in Heq; simplify_eq.
  left. by exists [], entry.
Qed.

(** *** Invariants *)

Lemma newPullTarget_initial metrics logger handler relabel jobName config (s0 : System) :
  newPullTarget metrics logger handler relabel jobName config = inr s0 ->
  exists ps,
    s0 = mkSystem (mkPullTarget metrics logger handler config relabel jobName
                                false 0 ps (make_chan 0))
                  CSpawned RNotStarted (SIdle 0) [] [] [].
Proof.
  unfold Pull.newPullTarget. destruct (pubsub_NewClient _) as [e|ps]; [done|].
  intros [= <-]. by exists ps.
Qed.

Lemma newPullTarget_Inv metrics logger handler relabel jobName config (s0 : System) :
  newPullTarget metrics logger handler relabel jobName config = inr s0 -> Inv s0.
Proof.
  intros (ps & ->)%newPullTarget_initial. by split.
Qed.

Lemma newPullTarget_TraceInv metrics logger handler relabel jobName config (s0 : System) :
  newPullTarget metrics logger handler relabel jobName config = inr s0 -> TraceInv s0.
Proof.
  intros (ps & ->)%newPullTarget_initial.
  split; simpl; try done. apply ack_after_attempt_nil.
Qed.

Lemma step_Inv a (s s' : System) : Inv s -> step a s = Some s' -> Inv s'.
Proof.
  intros Hinv Hs.
  step_inv Hs; destruct Hinv as [Hcap Hbuf Hwg Hrecv Hcbs Hret Hex Hstop];
    split; simpl in *; try done; try lia; try (intuition congruence).
Qed.

Ltac no_ack :=
  apply ack_after_attempt_no_ack; intros ?;
  rewrite !elem_of_cons, elem_of_nil; intuition discriminate.

Lemma step_TraceInv a (s s' : System) : TraceInv s -> step a s = Some s' -> TraceInv s'.
Proof.
  intros Hinv Hs.
  step_inv Hs; destruct Hinv as [Hra Hfm Hat Hord Hheld]; simpl in *;
    (split; simpl;
     [ intros m'; specialize (Hra m'); simpl in Hra; count_simpl
     | intros m'; specialize (Hfm m'); count_simpl
     | intros m'; specialize (Hat m'); count_simpl
     | try done; apply ack_after_attempt_app; try done;
       first [ apply ack_after_attempt_failed
             | apply ack_after_attempt_sent
             | no_ack ]
     | count_simpl ]).
Qed.

Lemma exec_Inv metrics logger handler relabel jobName config sched (s0 s : System) :
  newPullTarget metrics logger handler relabel jobName config = inr s0 ->
  exec sched s0 = Some s -> Inv s /\ TraceInv s.
Proof.
  intros Hnew Hex. split.
  - eapply (exec_preserves Inv); [apply step_Inv | | exact Hex].
    by eapply newPullTarget_Inv.
  - eapply (exec_preserves TraceInv); [apply step_TraceInv | | exact Hex].
    by eapply newPullTarget_TraceInv.
Qed.

(** *** The consumer loop *)


(** *** The handoff queue *)

(** While the consumer waits in the send to the sink, a step that is not
    the sink taking the entry leaves it waiting, hands off nothing and
    releases no callback. *)
Lemma blocked_step a (s s' : System) m entry :
  Inv s -> consumer s = CSending m entry -> a <> SinkAccept ->
  step a s = Some s' ->
  consumer s' = CSending m entry
  /\ count is_any_recv (trace s') = count is_any_recv (trace s)
  /\ callbacks s `prefix_of` callbacks s'.
Proof.
  intros Hinv Hc Hne Hs.
  step_inv Hs; destruct Hinv as [Hcap Hbuf _ _ _ _ _ _]; simpl in *;
    simplify_eq; try lia;
    (split; [done|]; split; [count_simpl | try done; by apply prefix_app_r]).
Qed.

Lemma blocked_exec sched (s s' : System) m entry :
  Inv s -> consumer s = CSending m entry -> SinkAccept ∉ sched ->
  exec sched s = Some s' ->
  consumer s' = CSending m entry
  /\ count is_any_recv (trace s') = count is_any_recv (trace s)
  /\ callbacks s `prefix_of` callbacks s'.
Proof.
  revert s. induction sched as [|a sched IH]; intros s Hinv Hc Hno Hex; simpl in Hex.
  - by simplify_eq.
  - destruct (step a s) as [s1|] eqn:Hs; [|done].
    apply not_elem_of_cons in Hno as [Hne Hno].
    destruct (blocked_step a s s1 m entry Hinv Hc) as (Hc1 & Hr1 & Hp1); [done..|].
    destruct (IH s1) as (Hc2 & Hr2 & Hp2); [by eapply step_Inv|done..|].
    split; [done|]. split; [congruence|]. by etrans.
Qed.

(** A blocked callback is released only by the consumer taking its handle
    at the [select]. *)
Lemma callback_released a (s s' : System) :
  Inv s -> step a s = Some s' ->
  (length (callbacks s') < length (callbacks s))%nat ->
  consumer s = CSelect
  /\ exists i now m,
       a = SelectMsg i now
       /\ callbacks s !! i = Some m
       /\ callbacks s' = delete i (callbacks s)
       /\ count is_any_recv (trace s') = S (count is_any_recv (trace s)).
Proof.
  intros Hinv Hs Hlen.
  step_inv Hs; destruct Hinv as [Hcap Hbuf _ _ _ _ _ _]; simpl in *;
    simplify_eq; try lia.
  - split; [done|]. eexists _, _, _. repeat split; [done|]. count_simpl.
  - split; [done|]. eexists _, _, _. repeat split; [done|]. count_simpl.
  - rewrite length_app in Hlen. simpl in Hlen. lia.
Qed.

(** C8.  The handoff queue is created without capacity and never holds a
    handle: a callback blocked in its send is released only by the step in
    which the consumer takes its handle; while the consumer waits for the
    sink, no schedule in which the sink does not take the entry hands off
    another handle or releases a callback; and at any time at most one
    received handle is not yet acknowledged. *)
Theorem handoff_unbuffered metrics logger handler relabel jobName config
    sched (s0 s : System) :
  newPullTarget metrics logger handler relabel jobName config = inr s0 ->
  exec sched s0 = Some s ->
  msgs (target s0) = make_chan 0
  /\ msgs (target s) = mkChan 0 []
  /\ (forall a s',
        step a s = Some s' ->
        (length (callbacks s') < length (callbacks s))%nat ->
        consumer s = CSelect
        /\ exists i now m,
             a = SelectMsg i now
             /\ callbacks s !! i = Some m
             /\ callbacks s' = delete i (callbacks s)
             /\ count is_any_recv (trace s') = S (count is_any_recv (trace s)))
  /\ (forall m entry sched' s',
        consumer s = CSending m entry ->
        SinkAccept ∉ sched' ->
        exec sched' s = Some s' ->
        consumer s' = CSending m entry
        /\ count is_any_recv (trace s') = count is_any_recv (trace s)
        /\ callbacks s `prefix_of` callbacks s')
  /\ (count is_any_recv (trace s) <= count is_any_ack (trace s) + 1)%nat.
Proof.
  intros Hnew Hex.
  destruct (exec_Inv _ _ _ _ _ _ _ _ _ Hnew Hex) as [Hinv Htr].
  split; [|split; [|split; [|split]]].
  - apply newPullTarget_initial in Hnew as (ps & ->). done.
  - destruct Hinv as [Hcap Hbuf _ _ _ _ _ _].
    destruct (msgs (target s)) as [c b]. simpl in *. by subst.
  - intros a s' Hs Hlen. by eapply callback_released.
  - intros m entry sched' s' Hc Hno Hex'. by eapply blocked_exec.
  - destruct Htr as [_ _ _ _ Hheld]. rewrite Hheld.
    destruct (consumer s); simpl; lia.
Qed.

(** Nothing but the counters, the sink, the context, the wait group and
    the queue of the target ever changes. *)
Lemma step_config a (s s' : System) :
  step a s = Some s' ->
  config (target s') = config (target s)
  /\ (ctx_done (target s) = true -> ctx_done (target s') = true)
  /\ (consumer s <> CSpawned -> consumer s' <> CSpawned)
  /\ (consumer s <> CSpawned -> receiver s = RReturned -> receiver s' = RReturned).
Proof. intros Hs. step_inv Hs; simpl; done. Qed.

Lemma exec_config sched (s s' : System) :
  exec sched s = Some s' ->
  config (target s') = config (target s)
  /\ (ctx_done (target s) = true -> ctx_done (target s') = true)
  /\ (consumer s <> CSpawned -> consumer s' <> CSpawned)
  /\ (consumer s <> CSpawned -> receiver s = RReturned -> receiver s' = RReturned).
Proof.
  revert s. induction sched as [|a sched IH]; intros s Hex; simpl in Hex.
  - by simplify_eq.
  - destruct (step a s) as [s1|] eqn:Hs; [|done].
    destruct (step_config _ _ _ Hs) as (Hc & Hd & Hn & Hr).
    destruct (IH _ Hex) as (Hc' & Hd' & Hn' & Hr').
    split; [congruence|]. repeat split; auto.
Qed.

(** C3 (what the code does).  When [format] fails on the handle taken at
    the [select], the consumer logs the failure, acknowledges the handle
    and sends nothing to the sink; no counter moves: the metrics after the
    step are the metrics before it. *)
Theorem translation_failure_not_counted (s : System) i now (m : Message) err :
  consumer s = CSelect ->
  buf (msgs (target s)) = [] ->
  callbacks s !! i = Some m ->
  format m (cfgLabels (config (target s))) (UseIncomingTimestamp (config (target s)))
         (relabelConfig (target s)) now = inl err ->
  exists s',
    step (SelectMsg i now) s = Some s'
    /\ output s' = output s ++ [Log "error" (logger (target s))
                                    [("event", "error formating log entry");
                                     ("cause", err)]]
    /\ trace s' = trace s ++ [EvRecv m; EvFormat m (inl err); EvAck m]
    /\ handler (target s') = handler (target s)
    /\ metrics (target s') = metrics (target s)
    /\ consumer s' = CSelect.
Proof.
  intros Hc Hb Hcb Hf. simpl. unfold select_msg, chan_recv.
  rewrite Hc, Hb, Hcb. simpl. rewrite Hf. by eexists.
Qed.

(** *** Shutdown *)

(** [StopCall] then [StopJoin] with no other goroutine moving is [Stop]. *)
Lemma Stop_steps (s : System) n :
  stopper s = SIdle n ->
  match Stop (target s) with
  | Some (_, t) =>
      exists s', exec [StopCall; StopJoin] s = Some s'
                 /\ target s' = t /\ stopper s' = SIdle (S n)
                 /\ trace s' = trace s ++ [EvCancel; EvWaitReturn; EvHandlerStop;
                                           EvStopReturn]
  | None => exec [StopCall; StopJoin] s = None
  end.
Proof.
  intros Hst. unfold Stop. simpl. unfold stop_call. rewrite Hst. simpl.
  unfold stop_join. simpl. case_bool_decide; [|done].
  eexists. split; [done|]. simpl. by rewrite <- app_assoc.
Qed.

(** The join waits for a consumer that is in its loop: when [t.wg.Wait()]
    returns, the goroutine of [run] has returned or has not run yet. *)
Lemma stop_join_consumer metrics logger handler relabel jobName config
    sched (s0 s s' : System) :
  newPullTarget metrics logger handler relabel jobName config = inr s0 ->
  exec sched s0 = Some s ->
  step StopJoin s = Some s' ->
  consumer s = CReturned \/ consumer s = CSpawned.
Proof.
  intros Hnew Hex Hs.
  destruct (exec_Inv _ _ _ _ _ _ _ _ _ Hnew Hex) as [[_ _ Hwg _ _ _ _ _] _].
  simpl in Hs. unfold stop_join in Hs.
  destruct (stopper s); [done|]. case_bool_decide as Hz; [|done].
  rewrite Hz in Hwg. destruct (consumer s); simpl in Hwg; auto; lia.
Qed.

(** C5 (the failing schedule).  Right after the constructor, [Stop] runs
    to completion (cancel, join, sink stop, return) while the goroutine
    of [run] has not executed [t.wg.Add(1)] yet: the join returns at once,
    [Stop] returns, and only then does the consumer enter its loop. *)
Theorem Stop_returns_before_consumer_runs metrics logger handler relabel jobName
    config (s0 : System) :
  newPullTarget metrics logger handler relabel jobName config = inr s0 ->
  exists s1 s2,
    exec [StopCall; StopJoin] s0 = Some s1
    /\ trace s1 = [EvCancel; EvWaitReturn; EvHandlerStop; EvStopReturn]
    /\ stopper s1 = SIdle 1
    /\ consumer s1 = CSpawned
    /\ step RunStart s1 = Some s2
    /\ consumer s2 = CSelect
    /\ receiver s2 = RReceiving.
Proof.
  intros (ps & ->)%newPullTarget_initial. by eexists _, _.
Qed.

(** Once [sub.Receive] has returned nothing is delivered any more, and
    every step of the loop uses up one of the steps it has left. *)
Lemma remaining_steps_step a (s s' : System) :
  Inv s -> receiver s = RReturned -> step a s = Some s' ->
  receiver s' = RReturned
  /\ ((if is_consumer_step a then 1 else 0) + remaining_steps s'
      <= remaining_steps s)%nat.
Proof.
  intros Hinv Hr Hs.
  step_inv Hs; destruct Hinv as [Hcap Hbuf _ Hrc _ _ _ _];
    unfold remaining_steps; simpl in *; simplify_eq; try lia;
    try (split; [done|]; lia);
    try (split; [done|];
         match goal with
         | Hl : ?l !! ?i = Some _ |- _ =>
             rewrite (length_delete l i) by (by eexists);
             apply lookup_lt_Some in Hl; lia
         end).
  destruct Hrc as [_ Hrc]. by specialize (Hrc eq_refl).
Qed.

Lemma remaining_steps_exec sched (s s' : System) :
  Inv s -> receiver s = RReturned -> exec sched s = Some s' ->
  receiver s' = RReturned
  /\ (consumer_steps sched + remaining_steps s' <= remaining_steps s)%nat.
Proof.
  revert s. induction sched as [|a sched IH]; intros s Hinv Hr Hex; simpl in Hex.
  - simplify_eq. split; [done|]. unfold consumer_steps. simpl. lia.
  - destruct (step a s) as [s1|] eqn:Hs; [|done].
    destruct (remaining_steps_step _ _ _ Hinv Hr Hs) as [Hr1 Hm1].
    destruct (IH s1) as [Hr2 Hm2]; [by eapply step_Inv|done..|].
    split; [done|]. unfold consumer_steps in *. simpl.
    destruct (is_consumer_step a); simpl in *; lia.
Qed.

(** C6 (amended).  When [sub.Receive] returns, the receive goroutine
    cancels the context and ends; it logs, counts the failure and sets the
    gauge exactly when the returned error is not nil.  From then on the
    context stays cancelled and [sub.Receive] is never entered again (no
    delivery and no second return are possible).  The cancellation makes
    the loop of [run] end: in every later state the loop has ended, with
    the wait group released so that the join of [Stop] returns, or it has
    a step to take, and it takes at most [remaining_steps] steps in all.
    At its [select] the cancellation case is enabled and ends the loop; in
    [send <- entry] the cancellation is not looked at and no handle is
    taken, and the step is the sink taking the entry, which brings the
    loop to the [select]. *)
Theorem receive_return_cancels mtr lgr hdl relabel job cfg
    sched0 (s0 s : System) (err : option error) (now : Z) :
  newPullTarget mtr lgr hdl relabel job cfg = inr s0 ->
  exec sched0 s0 = Some s ->
  receiver s = RReceiving ->
  exists s',
    step (ReceiveReturn err now) s = Some s'
    /\ ctx_done (target s') = true
    /\ receiver s' = RReturned
    /\ consumer s' = consumer s
    /\ callbacks s' = callbacks s
    /\ (forall e, err = Some e -> reports_receive_exit now s s'
          /\ output s' = output s ++ [Log "error" (logger (target s))
                                          [("msg", "failed to receive pubsub messages");
                                           ("error", e)]])
    /\ (err = None -> output s' = output s
                      /\ metrics (target s') = metrics (target s))
    /\ (forall sched s'',
          exec sched s' = Some s'' ->
          ctx_done (target s'') = true
          /\ receiver s'' = RReturned
          /\ (forall m, step (Deliver m) s'' = None)
          /\ (forall e t, step (ReceiveReturn e t) s'' = None)
          /\ (consumer_steps sched + remaining_steps s'' <= remaining_steps s')%nat
          /\ match consumer s'' with
             | CSpawned => False
             | CSelect =>
                 exists s3, step SelectDone s'' = Some s3
                            /\ consumer s3 = CReturned
                            /\ wg (target s3) = 0%Z
                            /\ trace s3 = trace s'' ++ [EvLoopExit]
             | CSending m entry =>
                 step SelectDone s'' = None
                 /\ (forall i t, step (SelectMsg i t) s'' = None)
                 /\ exists s3 s4,
                      step SinkAccept s'' = Some s3
                      /\ consumer s3 = CSelect
                      /\ step SelectDone s3 = Some s4
                      /\ consumer s4 = CReturned
                      /\ wg (target s4) = 0%Z
             | CReturned =>
                 wg (target s'') = 0%Z
                 /\ (forall n, stopper s'' = SWaiting n ->
                                is_Some (step StopJoin s''))
             end).
Proof.
  intros Hnew Hex0 Hr.
  destruct (exec_Inv _ _ _ _ _ _ _ _ _ Hnew Hex0) as [Hinv _].
  assert (consumer s <> CSpawned) as Hns.
  { intros Hc. apply (inv_receiver _ Hinv) in Hc. congruence. }
  destruct (step (ReceiveReturn err now) s) as [s'|] eqn:Hs;
    [|by simpl in Hs; unfold receive_return in Hs; rewrite Hr in Hs].
  assert (Inv s') as Hinv' by (by eapply step_Inv).
  simpl in Hs. unfold receive_return in Hs. rewrite Hr in Hs.
  injection Hs as <-.
  eexists. split; [reflexivity|]. split; [done|]. split; [done|].
  split; [by destruct err|]. split; [by destruct err|].
  split; [|split].
  - intros e ->. unfold reports_receive_exit. simpl.
    split; [|done]. split; [by eexists|]. split.
    + unfold vec_get, vec_Inc. by rewrite lookup_insert_eq.
    + split; [|done]. by rewrite lookup_insert_eq.
  - by intros ->.
  - intros sched s'' Hex.
    destruct (exec_config _ _ _ Hex) as (_ & Hd & Hnsp & _).
    assert (ctx_done (target s'') = true) as Hdone
        by (apply Hd; by destruct err).
    destruct (remaining_steps_exec _ _ _ Hinv' eq_refl Hex) as [Hret Hm].
    assert (Inv s'') as Hinv''
        by (eapply (exec_preserves Inv); [apply step_Inv | exact Hinv' | exact Hex]).
    split; [done|]. split; [done|].
    split; [|split; [|split]].
    + intros m. simpl. unfold deliver. by rewrite Hret.
    + intros e t. simpl. unfold receive_return. by rewrite Hret.
    + exact Hm.
    + pose proof (inv_wg _ Hinv'') as Hwg.
      destruct (consumer s'') as [| |m entry|] eqn:Hc; simpl in Hwg.
      * apply Hnsp; [by destruct err | done].
      * simpl. unfold select_done. rewrite Hc, Hdone.
        eexists. split; [reflexivity|]. simpl. split; [done|]. split; [lia|done].
      * simpl. unfold select_done, select_msg, sink_accept. rewrite Hc.
        split; [done|]. split; [done|]. eexists _, _.
        split; [reflexivity|]. simpl. rewrite Hdone.
        split; [done|]. split; [reflexivity|]. simpl. split; [done|lia].
      * split; [done|]. intros n Hst. simpl. unfold stop_join.
        rewrite Hst. rewrite bool_decide_eq_true_2 by done. by eexists.
Qed.

(** *** Further invariants of the pull ingress *)

Import PullTrace.

(** Where an occurrence of [x] in [tr ++ suf] lies. *)
Lemma occurrence_app {A} (tr suf pre post : list A) (x : A) :
  tr ++ suf = pre ++ x :: post ->
  (exists post', tr = pre ++ x :: post' /\ post = post' ++ suf)
  \/ (exists k, pre = tr ++ k /\ suf = k ++ x :: post).
Proof.
  intros Heq. apply List.app_eq_app in Heq as [l [[-> Hl] | [-> Hl]]].
  - destruct l as [|y l]; simpl in Hl.
    + right. exists []. by rewrite !app_nil_r.
    + injection Hl as <- ->. left. by exists l.
  - right. by exists l.
Qed.

(** X1.  The wait-group counter is 1 exactly while the goroutine of [run]
    is in its loop and 0 otherwise: it never goes negative, so the
    deferred [t.wg.Done()] cannot panic. *)
Theorem wait_group_counter metrics logger handler relabel jobName config
    sched (s0 s : System) :
  newPullTarget metrics logger handler relabel jobName config = inr s0 ->
  exec sched s0 = Some s ->
  wg (target s) = (if in_loop (consumer s) then 1 else 0)%Z
  /\ (0 <= wg (target s) <= 1)%Z.
Proof.
  intros Hnew Hex.
  destruct (exec_Inv _ _ _ _ _ _ _ _ _ Hnew Hex) as [[_ _ Hwg _ _ _ _ _] _].
  split; [done|]. rewrite Hwg. destruct (in_loop _); lia.
Qed.

Lemma replay_app (tr1 tr2 : list Event) (h : H) :
  replay (tr1 ++ tr2) h = replay tr2 (replay tr1 h).
Proof. unfold replay. by rewrite foldl_app. Qed.

Lemma step_replay a (s s' : System) (h0 : H) :
  handler (target s) = replay (trace s) h0 ->
  step a s = Some s' ->
  handler (target s') = replay (trace s') h0.
Proof.
  intros Hinv Hs. step_inv Hs; simpl in *; rewrite ?replay_app; by subst.
Qed.

(** X3.  Whatever the schedule, the sink is the sink the constructor was
    given with the events of the trace applied in order: each completed
    send hands it that entry, each [t.handler.Stop()] stops it, and
    nothing else ever changes it. *)
Theorem sink_replays_trace metrics logger handler relabel jobName config
    sched (s0 s : System) :
  newPullTarget metrics logger handler relabel jobName config = inr s0 ->
  exec sched s0 = Some s ->
  Pull.handler (target s) = replay (trace s) handler.
Proof.
  intros Hnew Hex.
  eapply (exec_preserves (fun s => Pull.handler (target s) = replay (trace s) handler));
    [intros; by eapply step_replay | | exact Hex].
  by apply newPullTarget_initial in Hnew as (ps & ->).
Qed.

Lemma vec_get_Inc_eq (k : string) (c : gmap string nat) :
  vec_get k (vec_Inc k c) = S (vec_get k c).
Proof. unfold vec_get, vec_Inc. by rewrite lookup_insert_eq. Qed.

Lemma vec_Inc_ne (k k' : string) (c : gmap string nat) :
  k <> k' -> vec_Inc k c !! k' = c !! k'.
Proof. intros Hne. unfold vec_Inc. by rewrite lookup_insert_ne. Qed.

(** X4.  Counter bookkeeping of the pull ingress, whatever the schedule.
    The entries counter of the project has gone up by the number of
    completed sends, and the errors counter of the project by the number
    of times [sub.Receive] returned an error, which is at most one; a
    failed translation is in neither.  No other project's counter and no
    push counter moves, and the log has one line per failed translation
    and one per receive error. *)
Theorem pull_counters metrics logger handler relabel jobName config
    sched (s0 s : System) :
  newPullTarget metrics logger handler relabel jobName config = inr s0 ->
  exec sched s0 = Some s ->
  vec_get (ProjectID config) (gcplogEntries (Pull.metrics (target s)))
    = (vec_get (ProjectID config) (gcplogEntries metrics)
       + count is_any_send (trace s))%nat
  /\ vec_get (ProjectID config) (gcplogErrors (Pull.metrics (target s)))
     = (vec_get (ProjectID config) (gcplogErrors metrics)
        + count is_receive_error (trace s))%nat
  /\ (count is_receive_error (trace s) <= 1)%nat
  /\ (forall p, p <> ProjectID config ->
        gcplogEntries (Pull.metrics (target s)) !! p = gcplogEntries metrics !! p
        /\ gcplogErrors (Pull.metrics (target s)) !! p = gcplogErrors metrics !! p)
  /\ gcpPushEntries (Pull.metrics (target s)) = gcpPushEntries metrics
  /\ gcpPushErrors (Pull.metrics (target s)) = gcpPushErrors metrics
  /\ length (output s)
     = (count is_any_format_err (trace s) + count is_receive_error (trace s))%nat.
Proof.
  intros Hnew Hex.
  pose (P := fun s : System =>
    Inv s
    /\ Pull.config (target s) = config
    /\ vec_get (ProjectID config) (gcplogEntries (Pull.metrics (target s)))
       = (vec_get (ProjectID config) (gcplogEntries metrics)
          + count is_any_send (trace s))%nat
    /\ vec_get (ProjectID config) (gcplogErrors (Pull.metrics (target s)))
       = (vec_get (ProjectID config) (gcplogErrors metrics)
          + count is_receive_error (trace s))%nat
    /\ (receiver s <> RReturned -> count is_receive_return (trace s) = 0%nat)
    /\ (count is_receive_return (trace s) <= 1)%nat
    /\ (count is_receive_error (trace s) <= count is_receive_return (trace s))%nat
    /\ (forall p, p <> ProjectID config ->
          gcplogEntries (Pull.metrics (target s)) !! p = gcplogEntries metrics !! p
          /\ gcplogErrors (Pull.metrics (target s)) !! p = gcplogErrors metrics !! p)
    /\ gcpPushEntries (Pull.metrics (target s)) = gcpPushEntries metrics
    /\ gcpPushErrors (Pull.metrics (target s)) = gcpPushErrors metrics
    /\ length (output s)
       = (count is_any_format_err (trace s) + count is_receive_error (trace s))%nat).
  assert (P s) as (_ & _ & He & Hr & _ & Hle & Hle' & Hp & Hpe & Hpr & Hlog).
  2: { split; [done|]. split; [done|]. split; [lia|]. split; [exact Hp|]. done. }
  eapply (exec_preserves P); [| | exact Hex].
  - clear Hnew Hex. clear s0 s.
    intros a s s' (Hinv & Hc & He & Hr & Hz & Hle & Hle' & Hp & Hpe & Hpr & Hlog) Hs.
    pose proof (step_Inv _ _ _ Hinv Hs) as Hinv'.
    unfold P. split; [exact Hinv'|]. clear Hinv'.
    destruct Hinv as [_ _ _ Hrc _ _ _ _].
    step_inv Hs; simpl in *; subst;
      try (specialize (Hz ltac:(congruence)));
      try (assert (receiver0 = RNotStarted) as -> by tauto;
           specialize (Hz ltac:(congruence)));
      rewrite ?count_app, ?length_app, ?vec_get_Inc_eq; simpl;
      (split; [done|]); repeat split;
      try (intros; unfold count in *; simpl in *; lia);
      try (intros Hne; specialize (Hz Hne); unfold count in *; simpl in *; lia);
      try (rewrite vec_Inc_ne by done);
      try (by apply Hp); try done.
  - apply newPullTarget_initial in Hnew as (ps & ->). unfold P. simpl.
    split; [by split|]. repeat split; unfold count; simpl; lia.
Qed.

(** X5.  Every entry that reaches the sink is what [format] returned for
    the handle it is sent for, called with the labels, the timestamp flag
    and the relabel rules the target was built with; and every translation
    on record, failed or not, is such a call. *)
Theorem sent_entries_are_formatted metrics logger handler relabel jobName config
    sched (s0 s : System) :
  newPullTarget metrics logger handler relabel jobName config = inr s0 ->
  exec sched s0 = Some s ->
  (forall m entry, EvSend m entry ∈ trace s ->
     exists now, format m (cfgLabels config) (UseIncomingTimestamp config)
                        relabel now = inr entry)
  /\ (forall m r, EvFormat m r ∈ trace s ->
        exists now, format m (cfgLabels config) (UseIncomingTimestamp config)
                           relabel now = r).
Proof.
  intros Hnew Hex.
  pose (fmt := fun m now => format m (cfgLabels config) (UseIncomingTimestamp config)
                                   relabel now).
  pose (P := fun s : System =>
    Pull.config (target s) = config
    /\ relabelConfig (target s) = relabel
    /\ (forall m entry, consumer s = CSending m entry ->
          exists now, fmt m now = inr entry)
    /\ (forall m entry, EvSend m entry ∈ trace s -> exists now, fmt m now = inr entry)
    /\ (forall m r, EvFormat m r ∈ trace s -> exists now, fmt m now = r)).
  assert (P s) as (_ & _ & _ & Hsend & Hfmt); [|by split].
  eapply (exec_preserves P); [| | exact Hex].
  - clear Hnew Hex. clear s0 s.
    intros a s s' (Hc & Hrl & Hcs & Hsend & Hfmt) Hs. unfold P.
    step_inv Hs; simpl in *; subst; (split; [done|]); (split; [done|]);
      repeat split; try done;
      intros m' x; rewrite ?elem_of_app, ?elem_of_cons, ?elem_of_nil;
      intros Hin; simplify_eq;
      repeat match goal with
             | Hor : _ \/ _ |- _ => destruct Hor
             | Hf : False |- _ => destruct Hf
             end; simplify_eq; eauto.
  - apply newPullTarget_initial in Hnew as (ps & ->). unfold P. simpl.
    repeat split; try done; intros m x Hin; by apply elem_of_nil in Hin.
Qed.

(** Once [run] has returned, no step takes a handle, acknowledges or sends
    anything, and no blocked callback is released. *)
Lemma returned_step a (s s' : System) :
  Inv s -> consumer s = CReturned -> step a s = Some s' ->
  consumer s' = CReturned
  /\ count is_any_recv (trace s') = count is_any_recv (trace s)
  /\ count is_any_ack (trace s') = count is_any_ack (trace s)
  /\ count is_any_send (trace s') = count is_any_send (trace s)
  /\ callbacks s `prefix_of` callbacks s'.
Proof.
  intros Hinv Hc Hs.
  step_inv Hs; destruct Hinv as [Hcap Hbuf _ _ _ _ _ _]; simpl in *;
    simplify_eq; try lia;
    (split; [done|]); rewrite ?count_app; unfold count; simpl;
    repeat split; try lia; try done; by apply prefix_app_r.
Qed.

Lemma returned_exec sched' (s s' : System) :
  Inv s -> consumer s = CReturned -> exec sched' s = Some s' ->
  consumer s' = CReturned
  /\ count is_any_recv (trace s') = count is_any_recv (trace s)
  /\ count is_any_ack (trace s') = count is_any_ack (trace s)
  /\ count is_any_send (trace s') = count is_any_send (trace s)
  /\ callbacks s `prefix_of` callbacks s'.
Proof.
  revert s. induction sched' as [|a sched' IH]; intros s Hinv Hc Hex'; simpl in Hex'.
  - by simplify_eq.
  - destruct (step a s) as [s1|] eqn:Hs; [|done].
    destruct (returned_step a s s1 Hinv Hc Hs) as (Hc1 & Hr1 & Ha1 & Hs1 & Hp1).
    destruct (IH s1) as (Hc2 & Hr2 & Ha2 & Hs2 & Hp2); [by eapply step_Inv|done..|].
    split; [done|]. repeat split; try congruence. by etrans.
Qed.

(** X6.  After the goroutine of [run] has returned, whatever happens next:
    it stays returned, no handle is received, acknowledged or sent to the
    sink any more, and every delivery callback that is blocked in
    [t.msgs <- m], then or later, stays blocked for good. *)
Theorem returned_consumer_takes_nothing metrics logger handler relabel jobName
    config sched sched' (s0 s s' : System) :
  newPullTarget metrics logger handler relabel jobName config = inr s0 ->
  exec sched s0 = Some s ->
  consumer s = CReturned ->
  exec sched' s = Some s' ->
  consumer s' = CReturned
  /\ count is_any_recv (trace s') = count is_any_recv (trace s)
  /\ count is_any_ack (trace s') = count is_any_ack (trace s)
  /\ count is_any_send (trace s') = count is_any_send (trace s)
  /\ callbacks s `prefix_of` callbacks s'.
Proof.
  intros Hnew Hex Hc Hex'.
  destruct (exec_Inv _ _ _ _ _ _ _ _ _ Hnew Hex) as [Hinv _].
  by eapply returned_exec.
Qed.

(** X2.  Once the goroutine of [run] has started (it has executed
    [t.wg.Add(1)]), the join of [Stop] does wait for it: [t.wg.Wait()]
    returns only when [run] has returned, and after that [Stop] nothing is
    sent to the stopped sink and no handle is received or acknowledged,
    whatever happens next. *)
Theorem Stop_joins_started_consumer metrics logger handler relabel jobName config
    sched sched' (s0 s s1 s2 : System) :
  newPullTarget metrics logger handler relabel jobName config = inr s0 ->
  exec sched s0 = Some s ->
  consumer s <> CSpawned ->
  step StopJoin s = Some s1 ->
  exec sched' s1 = Some s2 ->
  consumer s = CReturned
  /\ wg (target s) = 0%Z
  /\ trace s1 = trace s ++ [EvWaitReturn; EvHandlerStop; EvStopReturn]
  /\ consumer s2 = CReturned
  /\ count is_any_send (trace s2) = count is_any_send (trace s1)
  /\ count is_any_recv (trace s2) = count is_any_recv (trace s1)
  /\ count is_any_ack (trace s2) = count is_any_ack (trace s1).
Proof.
  intros Hnew Hex Hns Hs Hex'.
  destruct (exec_Inv _ _ _ _ _ _ _ _ _ Hnew Hex) as [Hinv _].
  pose proof (step_Inv _ _ _ Hinv Hs) as Hinv1.
  assert (consumer s = CReturned /\ wg (target s) = 0%Z
          /\ trace s1 = trace s ++ [EvWaitReturn; EvHandlerStop; EvStopReturn]
          /\ consumer s1 = consumer s) as (Hc & Hwg0 & Htr & Hc1).
  { destruct Hinv as [_ _ Hwg _ _ _ _ _].
    simpl in Hs. unfold stop_join in Hs.
    destruct (stopper s); [done|]. case_bool_decide as Hz; [|done].
    simplify_eq. simpl. split; [|done].
    rewrite Hz in Hwg. destruct (consumer s); simpl in Hwg; try done; lia. }
  rewrite Hc in Hc1.
  destruct (returned_exec sched' s1 s2 Hinv1 Hc1 Hex') as (? & ? & ? & ? & _).
  by repeat split.
Qed.

Lemma exit_after_cancel_app tr suf :
  exit_after_cancel tr ->
  (forall k post, suf = k ++ EvLoopExit :: post -> EvCancel ∈ tr ++ k) ->
  exit_after_cancel (tr ++ suf).
Proof.
  intros Htr Hsuf pre post Heq.
  apply occurrence_app in Heq as [(post' & -> & _) | (k & -> & Hk)].
  - by eapply Htr.
  - by eapply Hsuf.
Qed.

Lemma stop_after_join_app tr suf :
  stop_after_join tr ->
  (forall k post, suf = k ++ EvHandlerStop :: post ->
     exists k', k = k' ++ [EvWaitReturn] /\ EvCancel ∈ tr ++ k') ->
  stop_after_join (tr ++ suf).
Proof.
  intros Htr Hsuf pre post Heq.
  apply occurrence_app in Heq as [(post' & -> & _) | (k & -> & Hk)].
  - by eapply Htr.
  - destruct (Hsuf _ _ Hk) as (k' & -> & Hin).
    exists (tr ++ k'). by rewrite app_assoc.
Qed.

(** No occurrence of [x] in a list it is not an element of. *)
Lemma occurrence_elem {A} (suf k post : list A) (x : A) :
  suf = k ++ x :: post -> x ∈ suf.
Proof. intros ->. apply elem_of_app. right. apply elem_of_cons. by left. Qed.

Ltac no_occurrence :=
  let Hk := fresh "Hk" in
  intros ? ? Hk; apply occurrence_elem in Hk; exfalso; revert Hk;
  rewrite !elem_of_cons, elem_of_nil; intuition discriminate.

(** X7.  The context is cancelled exactly when [t.cancel()] has been
    called, by [Stop] or by the goroutine around [sub.Receive], and it
    stays cancelled; the consumer loop is left at most once and only after
    such a call; [sub.Receive] returns at most once. *)
Theorem cancellation_and_exit metrics logger handler relabel jobName config
    sched (s0 s : System) :
  newPullTarget metrics logger handler relabel jobName config = inr s0 ->
  exec sched s0 = Some s ->
  (ctx_done (target s) = true <-> EvCancel ∈ trace s)
  /\ (consumer s = CReturned <-> EvLoopExit ∈ trace s)
  /\ exit_after_cancel (trace s)
  /\ (count is_loop_exit (trace s) <= 1)%nat
  /\ (count is_receive_return (trace s) <= 1)%nat
  /\ (forall sched' s', exec sched' s = Some s' ->
        ctx_done (target s) = true -> ctx_done (target s') = true).
Proof.
  intros Hnew Hex.
  pose (P := fun s : System =>
    Inv s
    /\ (ctx_done (target s) = true <-> EvCancel ∈ trace s)
    /\ (consumer s = CReturned <-> EvLoopExit ∈ trace s)
    /\ exit_after_cancel (trace s)
    /\ (count is_loop_exit (trace s) <= 1)%nat
    /\ (consumer s <> CReturned -> count is_loop_exit (trace s) = 0%nat)
    /\ (count is_receive_return (trace s) <= 1)%nat
    /\ (receiver s <> RReturned -> count is_receive_return (trace s) = 0%nat)).
  assert (P s) as (_ & Hc & Hx & Hord & Hle & _ & Hrr & _).
  2: { repeat split; try done; try apply Hc; try apply Hx.
       intros sched' s' Hex' Hd. by apply (exec_config _ _ _ Hex'). }
  eapply (exec_preserves P); [| | exact Hex].
  - clear Hnew Hex. clear s0 s.
    intros a s s' (Hinv & Hc & Hx & Hord & Hle & Hz & Hrr & Hrz) Hs.
    pose proof (step_Inv _ _ _ Hinv Hs) as Hinv'.
    unfold P. split; [exact Hinv'|]. clear Hinv'.
    destruct Hinv as [_ _ _ Hrc _ _ _ _].
    step_inv Hs; simpl in *; subst;
      try (specialize (Hz ltac:(congruence)));
      try (specialize (Hrz ltac:(congruence)));
      try (assert (receiver0 = RNotStarted) as -> by tauto;
           specialize (Hrz ltac:(congruence)));
      rewrite ?count_app; unfold count in *; simpl in *;
      (split; [rewrite ?elem_of_app, ?elem_of_cons, ?elem_of_nil;
               intuition congruence|]);
      (split; [rewrite ?elem_of_app, ?elem_of_cons, ?elem_of_nil;
               intuition congruence|]);
      (split; [first [ done
                     | apply exit_after_cancel_app; [done|];
                       first [ solve [no_occurrence]
                             | intros k post Hk; destruct k as [|? k];
                               [rewrite app_nil_r; tauto
                               |simpl in Hk; simplify_eq; by destruct k] ] ]|]);
      (split; [lia|]);
      (split; [intros Hne; first [congruence | lia | specialize (Hz Hne); lia]|]);
      (split; [lia|]);
      intros Hne; first [congruence | lia | specialize (Hrz Hne); lia].
  - apply newPullTarget_initial in Hnew as (ps & ->). unfold P. simpl.
    split; [by split|].
    repeat split; try done; unfold count; simpl; try lia;
      try (intros Hin; by apply elem_of_nil in Hin).
    intros pre post Heq. by destruct pre.
Qed.

Lemma stop_suffix_occurrence (k post : list Event) :
  [EvWaitReturn; EvHandlerStop; EvStopReturn] = k ++ EvHandlerStop :: post ->
  k = [EvWaitReturn].
Proof.
  intros Hk. destruct k as [|e1 k]; simpl in Hk; [discriminate Hk|].
  injection Hk as <- Hk. destruct k as [|e2 k]; simpl in Hk; [done|].
  injection Hk as _ Hk. apply occurrence_elem in Hk.
  rewrite !elem_of_cons, elem_of_nil in Hk. intuition discriminate.
Qed.

(** X8.  Whatever the schedule, [t.handler.Stop()] is called only from
    [Stop]: each call comes right after the join of that [Stop] returned,
    which itself comes after a cancellation, and there is exactly one such
    call per call of [Stop] that has returned. *)
Theorem handler_stopped_by_Stop metrics logger handler relabel jobName config
    sched (s0 s : System) :
  newPullTarget metrics logger handler relabel jobName config = inr s0 ->
  exec sched s0 = Some s ->
  stop_after_join (trace s)
  /\ count is_handler_stop (trace s) = count is_stop_return (trace s)
  /\ (forall n, stopper s = SIdle n \/ stopper s = SWaiting n ->
        count is_stop_return (trace s) = n).
Proof.
  intros Hnew Hex.
  pose (P := fun s : System =>
    stop_after_join (trace s)
    /\ count is_handler_stop (trace s) = count is_stop_return (trace s)
    /\ (forall n, stopper s = SIdle n \/ stopper s = SWaiting n ->
          count is_stop_return (trace s) = n)
    /\ (forall n, stopper s = SWaiting n -> EvCancel ∈ trace s)).
  assert (P s) as (Ho & Hc & Hn & _); [|done].
  eapply (exec_preserves P); [| | exact Hex].
  - clear Hnew Hex. clear s0 s.
    intros a s s' (Ho & Hc & Hn & Hw) Hs. unfold P.
    step_inv Hs; simpl in *; subst;
      rewrite ?count_app; unfold count in *; simpl in *;
      (split; [first [ done
                     | apply stop_after_join_app; [done|];
                       first [ solve [no_occurrence]
                             | intros k post ->%stop_suffix_occurrence;
                               exists []; split; [done|]; rewrite app_nil_r;
                               by eapply Hw ] ]|]);
      (split; [lia|]);
      (split; [intros n' Hst; try (rewrite (Hn n') by done; lia);
               try (destruct Hst; simplify_eq; rewrite (Hn _ (or_intror eq_refl)); lia);
               try (destruct Hst; simplify_eq; rewrite (Hn _ (or_introl eq_refl)); lia)|]);
      intros n' Hst; simplify_eq;
      rewrite ?elem_of_app, ?elem_of_cons; eauto.
  - apply newPullTarget_initial in Hnew as (ps & ->). unfold P. simpl.
    repeat split; try done.
    + intros pre post Heq. by destruct pre.
    + intros n [Hst | Hst]; by simplify_eq.
Qed.

End PullProperties.


(** ** The facade, for both variants *)

Section FacadeProperties.
Context {H : Type} `{EntryHandler H} {Srv : Type} `{HTTPServer Srv} {Client : Type}.
Context {PushMessage : Type}.
Variable json_Unmarshal : string -> error + PushMessage.
Variable translate :
  PushMessage -> LabelSet -> bool -> list RelabelConfig -> string -> error + Entry.
Variable pubsub_NewClient : string -> error + Client.
Variable format :
  Pull.Message -> LabelSet -> bool -> list RelabelConfig -> Z -> error + Entry.
Variable IsValidMetricName : string -> bool.
Variable MergeWithDefaults : ServerConfig -> error + ServerConfig.
Variable util_log_Logger : Logger.
Variable GcplogTargetType : TargetType.

Local Abbreviation pushTarget := (Push.pushTarget (H := H) (Srv := Srv)).
Local Abbreviation pullTarget := (Pull.pullTarget (H := H) (Client := Client)).
Local Abbreviation System := (Pull.System (H := H) (Client := Client)).
Local Abbreviation newPushTarget :=
  (Push.newPushTarget IsValidMetricName MergeWithDefaults util_log_Logger).
Local Abbreviation newPullTarget := (Pull.newPullTarget pubsub_NewClient).

Local Abbreviation push := (Push.push json_Unmarshal translate).


(** Handling a request and stopping change neither the configuration nor
    whether the server is set. *)
Lemma push_keeps_config accepts (h h' : pushTarget) rw rw' r w w' :
  push accepts h rw r w = Push.Returned h' rw' w' ->
  Push.config h' = Push.config h /\ Push.server h' = Push.server h.
Proof.
  unfold Push.push, Push.push_reject. intros Hp.
  repeat case_match; by simplify_eq.
Qed.

Lemma Stop_keeps_config (h h' : pushTarget) w w' r :
  Push.Stop h w = Some (r, h', w') ->
  Push.config h' = Push.config h /\ is_Some (Push.server h').
Proof.
  unfold Push.Stop. destruct (Push.server h); [|done].
  intros [= <- <- <-]. split; [done|]. by eexists.
Qed.

(** Requests and calls of [Stop] change neither the configuration nor
    whether the server is set. *)
Lemma calls_keep_config cs (h h' : pushTarget) w w' :
  Push.calls json_Unmarshal translate cs h w = Some (h', w') ->
  Push.config h' = Push.config h
  /\ (is_Some (Push.server h) -> is_Some (Push.server h')).
Proof.
  revert h w. induction cs as [|c cs IH]; intros h w Hc; simpl in Hc.
  - by simplify_eq.
  - destruct (Push.call _ _ c h w) as [[h1 w1]|] eqn:Hcall; [|done].
    destruct (IH _ _ Hc) as [-> Hsrv]. clear IH Hc.
    destruct c as [accepts rw r|]; simpl in Hcall.
    + unfold Push.push, Push.push_reject in Hcall.
      repeat case_match; simplify_eq; split; auto.
    + unfold Push.Stop in Hcall. destruct (Push.server h) eqn:Hs; [|done].
      simplify_eq. split; [done|]. intros _. apply Hsrv. by eexists.
Qed.


(** C9 (amended).  Each variant on its own, in every state.  A push
    target returned by its constructor, after any requests and calls of
    [Stop]: [Type] is the gcplog tag, [Labels] is the label set of the
    configuration the target was built with, [DiscoveredLabels] is empty,
    [Ready] is true and [Details] is an empty map.  A pull target returned
    by its constructor, after any schedule of its goroutines and of
    [Stop]: the same results, except that [Details] is nil, no map. *)
Theorem facade_results :
  (forall metrics logger handler relabel jobName config (w w' w'' : Push.World)
          (ht h' : pushTarget) cs,
     newPushTarget metrics logger handler jobName config relabel w = (inr ht, w') ->
     Push.calls json_Unmarshal translate cs ht w' = Some (h', w'') ->
     Push.Type_ GcplogTargetType h' = GcplogTargetType
     /\ Push.Labels h' = cfgLabels config
     /\ Push.DiscoveredLabels h' = ∅
     /\ Push.Ready h' = true
     /\ Push.Details h' = any_map ∅)
  /\ (forall metrics logger handler relabel jobName config sched (s0 s : System),
        newPullTarget metrics logger handler relabel jobName config = inr s0 ->
        Pull.exec format sched s0 = Some s ->
        Pull.Type_ GcplogTargetType (Pull.target s) = GcplogTargetType
        /\ Pull.Labels (Pull.target s) = cfgLabels config
        /\ Pull.DiscoveredLabels (Pull.target s) = ∅
        /\ Pull.Ready (Pull.target s) = true
        /\ Pull.Details (Pull.target s) = any_nil).
Proof.
  split.
  - intros metrics logger handler relabel jobName config w w' w'' ht h' cs Hnew Hcs.
    assert (Push.Labels ht = cfgLabels config) as Hl
        by (by eapply newPushTarget_Labels).
    repeat split. unfold Push.Labels in *.
    by rewrite (proj1 (calls_keep_config _ _ _ _ _ Hcs)).
  - intros metrics logger handler relabel jobName config sched s0 s Hpull Hex.
    repeat split. unfold Pull.Labels.
    destruct (exec_config _ _ _ _ Hex) as (-> & _).
    by apply newPullTarget_initial in Hpull as (ps & ->).
Qed.

(** The same through the [Target] interface, for any target value. *)
Lemma facade_interface (h : pushTarget) (t : pullTarget) :
  let push_facade := Push.pushTarget_Target GcplogTargetType in
  let pull_facade := Pull.pullTarget_Target GcplogTargetType in
  target_Type h = target_Type t
  /\ target_Ready h = true /\ target_Ready t = true
  /\ target_DiscoveredLabels h = ∅ /\ target_DiscoveredLabels t = ∅
  /\ target_Labels h = cfgLabels (Push.config h)
  /\ target_Labels t = cfgLabels (Pull.config t)
  /\ is_map (target_Details h) = true
  /\ is_map (target_Details t) = false.
Proof. by repeat split. Qed.

End FacadeProperties.


(** ** Rule-group validation *)

Section RulerProperties.
Variable ParseExpr : string -> option error.
Variable IsValidMetricName : string -> bool.
Variable LabelName_IsValid : string -> bool.
Variable LabelValue_IsValid : string -> bool.
Variable ParseTest : string -> string -> option error.

Import Ruler.

Local Abbreviation check_labels := (Ruler.check_labels LabelName_IsValid LabelValue_IsValid).
Local Abbreviation check_annotations := (Ruler.check_annotations LabelName_IsValid).
Local Abbreviation check_recording := (Ruler.check_recording IsValidMetricName).
Local Abbreviation check_expr := (Ruler.check_expr ParseExpr).
Local Abbreviation parseTest := (Ruler.parseTest ParseTest).
Local Abbreviation testTemplateParsing := (Ruler.testTemplateParsing ParseTest).
Local Abbreviation validateRuleNode :=
  (Ruler.validateRuleNode ParseExpr IsValidMetricName LabelName_IsValid
                          LabelValue_IsValid ParseTest).
Local Abbreviation ValidateGroups_from :=
  (Ruler.ValidateGroups_from ParseExpr IsValidMetricName LabelName_IsValid
                             LabelValue_IsValid ParseTest).
Local Abbreviation ValidateGroups :=
  (Ruler.ValidateGroups ParseExpr IsValidMetricName LabelName_IsValid
                        LabelValue_IsValid ParseTest).
Local Abbreviation ValidateRuleGroup :=
  (Ruler.ValidateRuleGroup ParseExpr IsValidMetricName LabelName_IsValid
                           LabelValue_IsValid ParseTest).
Local Abbreviation invalid_rules :=
  (Ruler.invalid_rules ParseExpr IsValidMetricName LabelName_IsValid
                       LabelValue_IsValid ParseTest).
Local Abbreviation rule_ok :=
  (Ruler.rule_ok ParseExpr IsValidMetricName LabelName_IsValid
                 LabelValue_IsValid ParseTest).

(** *** One rule *)

Lemma check_labels_None kvs :
  check_labels kvs = None <->
  forall k v, (k, v) ∈ kvs ->
    LabelName_IsValid k = true /\ k <> MetricNameLabel /\ LabelValue_IsValid v = true.
Proof.
  induction kvs as [|[k v] kvs IH]; simpl.
  - split; [|done]. intros _ k v Hin. by apply elem_of_nil in Hin.
  - destruct (LabelName_IsValid k) eqn:Hk; simpl.
    2: { split; [done|]. intros Hall.
         destruct (Hall k v) as (Hf & _); [by left | congruence]. }
    case_bool_decide as Hn; simpl.
    { split; [done|]. intros Hall.
      destruct (Hall k v) as (_ & Hf & _); [by left | done]. }
    destruct (LabelValue_IsValid v) eqn:Hv; simpl.
    2: { split; [done|]. intros Hall.
         destruct (Hall k v) as (_ & _ & Hf); [by left | congruence]. }
    rewrite IH. split.
    + intros Hall k' v' [Heq | Hin]%elem_of_cons; [by simplify_eq | by apply Hall].
    + intros Hall k' v' Hin. apply Hall. by right.
Qed.

Lemma check_annotations_None kvs :
  check_annotations kvs = None <->
  forall k v, (k, v) ∈ kvs -> LabelName_IsValid k = true.
Proof.
  induction kvs as [|[k v] kvs IH]; simpl.
  - split; [|done]. intros _ k v Hin. by apply elem_of_nil in Hin.
  - destruct (LabelName_IsValid k) eqn:Hk; simpl.
    2: { split; [done|]. intros Hall. rewrite (Hall k v) in Hk; [done | by left]. }
    rewrite IH. split.
    + intros Hall k' v' [Heq | Hin]%elem_of_cons; [by simplify_eq | by eapply Hall].
    + intros Hall k' v' Hin. eapply Hall. by right.
Qed.

Lemma omap_nil_iff {A B} (f : A -> option B) (l : list A) :
  omap f l = [] <-> forall x, x ∈ l -> f x = None.
Proof.
  induction l as [|a l IH]; simpl.
  - split; [|done]. intros _ x Hin. by apply elem_of_nil in Hin.
  - destruct (f a) eqn:Hfa.
    + split; [done|]. intros Hall. rewrite Hall in Hfa; [done | by left].
    + rewrite IH. split.
      * intros Hall x [-> | Hin]%elem_of_cons; [done | by apply Hall].
      * intros Hall x Hin. apply Hall. by right.
Qed.

Lemma testTemplateParsing_nil order2 (r : RuleNode) :
  testTemplateParsing order2 r = [] <->
  (Alert r <> "" ->
   forall k v, (k, v) ∈ order2 (Labels r) \/ (k, v) ∈ order2 (Annotations r) ->
               parseTest r v = None).
Proof.
  unfold Ruler.testTemplateParsing. case_bool_decide as Ha.
  - split; [intros _ Hne; done | done].
  - rewrite app_nil, !omap_nil_iff. split.
    + intros [Hl Hn] _ k v [Hin | Hin].
      * specialize (Hl _ Hin). simpl in Hl. by destruct (parseTest r v).
      * specialize (Hn _ Hin). simpl in Hn. by destruct (parseTest r v).
    + intros Hall. specialize (Hall Ha).
      split; intros [k v] Hin; simpl; rewrite (Hall k v); auto.
Qed.

Lemma check_recording_None (r : RuleNode) :
  check_recording r = None <->
  (Record_ r <> "" ->
   Annotations r = ∅ /\ For r = 0%Z /\ IsValidMetricName (Record_ r) = true).
Proof.
  unfold Ruler.check_recording.
  case_bool_decide as Hrec; [by split|].
  case_bool_decide as Hann.
  2: { split; [done|]. intros Hr. by destruct (Hr Hrec). }
  case_bool_decide as Hfor.
  2: { split; [done|]. intros Hr. by destruct (Hr Hrec) as (_ & ? & _). }
  destruct (IsValidMetricName _) eqn:Hv.
  - by split.
  - split; [done|]. intros Hr. destruct (Hr Hrec) as (_ & _ & ?). congruence.
Qed.

Lemma check_expr_None (r : RuleNode) groupName :
  check_expr r groupName = None <-> Expr r <> "" /\ ParseExpr (Expr r) = None.
Proof.
  unfold Ruler.check_expr. case_bool_decide.
  - split; [done | by intros []].
  - destruct (ParseExpr _); simpl; split; try done; by intros [].
Qed.

Lemma validateRuleNode_None order1 order2 (r : RuleNode) (groupName : string) :
  validateRuleNode order1 order2 r groupName = None <->
  ~ (Record_ r <> "" /\ Alert r <> "")
  /\ ~ (Record_ r = "" /\ Alert r = "")
  /\ check_expr r groupName = None
  /\ check_recording r = None
  /\ check_labels (order1 (Labels r)) = None
  /\ check_annotations (order1 (Annotations r)) = None
  /\ testTemplateParsing order2 r = [].
Proof.
  unfold Ruler.validateRuleNode. rewrite <- head_None.
  repeat case_bool_decide; simpl; try (split; [done | tauto]).
  all: destruct (check_expr r groupName); [split; [done | by intros (_ & _ & ? & _)]|].
  all: destruct (check_recording r);
    [split; [done | by intros (_ & _ & _ & ? & _)]|].
  all: destruct (check_labels _);
    [split; [done | by intros (_ & _ & _ & _ & ? & _)]|].
  all: destruct (check_annotations _);
    [split; [done | by intros (_ & _ & _ & _ & _ & ? & _)]|].
  all: split; [intros Hh; repeat split; try done; tauto | by intros (_ & _ & _ & _ & _ & _ & ?)].
Qed.

(** X11.  When the two orders visit exactly the entries of the maps,
    [validateRuleNode] returns no error exactly for the rules with: one
    of record and alert set and not both, an expression that is present
    and parses; for a recording rule no annotations, no [for] and a valid
    metric name; every label name valid and not [__name__], every label
    value valid, every annotation name valid; and, for an alerting rule,
    every label and annotation template parsing.  So whether a rule is
    accepted does not depend on the order in which the maps are visited. *)
Theorem validateRuleNode_accepts order1 order2 (r : RuleNode) (groupName : string) :
  visits_entries order1 ->
  visits_entries order2 ->
  validateRuleNode order1 order2 r groupName = None <-> rule_ok r.
Proof.
  intros Ho1 Ho2.
  rewrite validateRuleNode_None, check_expr_None, check_recording_None,
    check_labels_None, check_annotations_None.
  rewrite (testTemplateParsing_nil order2 r).
  unfold Ruler.rule_ok.
  destruct (decide (Record_ r = "")) as [Hrec | Hrec];
    destruct (decide (Alert r = "")) as [Hal | Hal].
  - split; [intros (_ & Hf & _); tauto | intros ([Hf _] & _); tauto].
  - split.
    + intros (_ & _ & He & Hr & Hl & Ha & Ht).
      split; [tauto|]. split; [tauto|]. split; [tauto|]. split; [done|].
      split; [intros k v Hin%Ho1; by apply Hl|].
      split; [intros k v Hin%Ho1; by eapply Ha|].
      intros _ k v [Hin | Hin]; apply (Ht Hal k v); [left | right]; by apply Ho2.
    + intros (_ & He & Hp & Hr & Hl & Ha & Ht).
      split; [tauto|]. split; [tauto|]. split; [done|]. split; [done|].
      split; [intros k v Hin%Ho1; by apply Hl|].
      split; [intros k v Hin%Ho1; by eapply Ha|].
      intros _ k v [Hin | Hin]; apply (Ht Hal k v); [left | right]; by apply Ho2.
  - split.
    + intros (_ & _ & He & Hr & Hl & Ha & Ht).
      split; [tauto|]. split; [tauto|]. split; [tauto|]. split; [done|].
      split; [intros k v Hin%Ho1; by apply Hl|].
      split; [intros k v Hin%Ho1; by eapply Ha|]. done.
    + intros (_ & He & Hp & Hr & Hl & Ha & Ht).
      split; [tauto|]. split; [tauto|]. split; [done|]. split; [done|].
      split; [intros k v Hin%Ho1; by apply Hl|].
      split; [intros k v Hin%Ho1; by eapply Ha|]. done.
  - split; [intros (Hf & _); tauto | intros ([_ Hf] & _)].
    exfalso. apply Hrec. by apply Hf.
Qed.

(** *** Groups *)

Lemma check_labels_not_group kvs e :
  check_labels kvs = Some e -> is_group_error e = false.
Proof.
  induction kvs as [|[k v] kvs IH]; simpl; [done|].
  repeat case_match; intros; simplify_eq; auto.
Qed.

Lemma check_annotations_not_group kvs e :
  check_annotations kvs = Some e -> is_group_error e = false.
Proof.
  induction kvs as [|[k v] kvs IH]; simpl; [done|].
  repeat case_match; intros; simplify_eq; auto.
Qed.

Lemma testTemplateParsing_not_group order2 r e :
  e ∈ testTemplateParsing order2 r -> is_group_error e = false.
Proof.
  unfold Ruler.testTemplateParsing. case_bool_decide.
  - by intros ?%elem_of_nil.
  - rewrite elem_of_app, !list_elem_of_omap.
    intros [([k v] & _ & Hx) | ([k v] & _ & Hx)];
      destruct (parseTest r v); simpl in Hx; by simplify_eq.
Qed.

Lemma validateRuleNode_not_group order1 order2 r groupName e :
  validateRuleNode order1 order2 r groupName = Some e -> is_group_error e = false.
Proof.
  unfold Ruler.validateRuleNode.
  repeat case_bool_decide; simpl; try (by intros [= <-]).
  all: unfold Ruler.check_expr, Ruler.check_recording.
  all: repeat case_bool_decide; simpl; try (by intros [= <-]).
  all: destruct (ParseExpr _); simpl; try (by intros [= <-]).
  all: try (destruct (IsValidMetricName _); simpl; try (by intros [= <-])).
  all: destruct (check_labels _) eqn:Hl;
    [intros [= <-]; by eapply check_labels_not_group|].
  all: destruct (check_annotations _) eqn:Ha;
    [intros [= <-]; by eapply check_annotations_not_group|].
  all: intros Hh; eapply testTemplateParsing_not_group;
    by eapply head_Some_elem_of.
Qed.

Lemma rule_errors_not_group order1 order2 groupName (rules : list RuleNode) :
  Forall (fun e => is_group_error e = false)
         (omap (fun r => validateRuleNode order1 order2 r groupName) rules).
Proof.
  apply Forall_forall. intros e (r & _ & Hr)%list_elem_of_omap.
  by eapply validateRuleNode_not_group.
Qed.

Lemma filter_none {A} (p : A -> bool) (l : list A) :
  Forall (fun x => p x = false) l -> List.filter p l = [].
Proof.
  induction 1 as [|x l Hx _ IH]; simpl; [done|]. by rewrite Hx.
Qed.

Lemma filter_all {A} (p : A -> bool) (l : list A) :
  Forall (fun x => p x = true) l -> List.filter p l = l.
Proof.
  induction 1 as [|x l Hx _ IH]; simpl; [done|]. by rewrite Hx, IH.
Qed.

Lemma if_singleton_nil {A} (b : bool) (x : A) :
  (if b then [x] else []) = [] <-> b = false.
Proof. by destruct b. Qed.

Lemma ValidateGroups_from_nil order1 order2 i (set : gset string) grps :
  ValidateGroups_from order1 order2 i set grps = [] <->
  (forall g, g ∈ grps -> Name g <> "" /\ Name g ∉ set)
  /\ NoDup (Name <$> grps)
  /\ (forall g r, g ∈ grps -> r ∈ Rules g ->
        validateRuleNode order1 order2 r (Name g) = None).
Proof.
  revert i set. induction grps as [|g grps IH]; intros i set; simpl.
  - split; [|done]. intros _. split; [|split].
    + intros g Hin. by apply elem_of_nil in Hin.
    + constructor.
    + intros g r Hin. by apply elem_of_nil in Hin.
  - rewrite !app_nil, IH, omap_nil_iff, NoDup_cons, list_elem_of_fmap.
    split.
    + intros (He & Hr & Hrules & Hrest & Hnd & Hrr).
      apply if_singleton_nil, bool_decide_eq_false in He as Hne.
      apply if_singleton_nil, bool_decide_eq_false in Hr as Hns.
      split; [|split; [split|]].
      * intros g' [-> | Hin]%elem_of_cons; [done|].
        destruct (Hrest g' Hin) as [? Hnot]. split; [done|].
        intros Hin'. apply Hnot, elem_of_union. by right.
      * intros (g' & Heq & Hin). destruct (Hrest g' Hin) as [_ Hnot].
        apply Hnot, elem_of_union. left. by apply elem_of_singleton.
      * done.
      * intros g' r [-> | Hin]%elem_of_cons Hr'; [by apply Hrules | by eapply Hrr].
    + intros (Hall & [Hnot Hnd] & Hrr).
      destruct (Hall g) as [Hne Hns]; [by left|].
      split; [by apply if_singleton_nil, bool_decide_eq_false|].
      split; [by apply if_singleton_nil, bool_decide_eq_false|].
      split; [intros r Hr; apply Hrr; [by left | done]|].
      split; [|split; [done|]].
      * intros g' Hin. destruct (Hall g') as [? ?]; [by right|].
        split; [done|]. intros [Heq%elem_of_singleton | ?]%elem_of_union; [|done].
        apply Hnot. by exists g'.
      * intros g' r Hin Hr. apply Hrr; [by right | done].
Qed.

(** X12.  [ValidateGroups] returns no error exactly when no group has an
    empty name, no two groups have the same name and every rule of every
    group passes [validateRuleNode] under its group's name. *)
Theorem ValidateGroups_accepts order1 order2 (grps : list RuleGroup) :
  ValidateGroups order1 order2 grps = [] <->
  (forall g, g ∈ grps -> Name g <> "")
  /\ NoDup (Name <$> grps)
  /\ (forall g r, g ∈ grps -> r ∈ Rules g ->
        validateRuleNode order1 order2 r (Name g) = None).
Proof.
  unfold Ruler.ValidateGroups. rewrite ValidateGroups_from_nil. split.
  - intros (Hall & Hnd & Hr). split; [|done]. intros g Hin. by apply Hall.
  - intros (Hall & Hnd & Hr). split; [|done]. intros g Hin. split; [by apply Hall|].
    apply not_elem_of_empty.
Qed.

Lemma not_group_not_empty (l : list RuleError) :
  Forall (fun e => is_group_error e = false) l ->
  Forall (fun e => is_empty_name_error e = false) l
  /\ Forall (fun e => is_repeated_name_error e = false) l
  /\ Forall (fun e => negb (is_group_error e) = true) l.
Proof.
  intros Hall. repeat split; eapply Forall_impl; try exact Hall; simpl;
    intros e He; unfold is_group_error in *;
    destruct (is_empty_name_error e), (is_repeated_name_error e); done.
Qed.

Lemma size_add_name (n : string) (set : gset string) :
  size ({[n]} ∪ set) = ((if bool_decide (n ∈ set) then 0 else 1) + size set)%nat.
Proof.
  case_bool_decide as Hin.
  - rewrite (subseteq_union_1_L {[n]} set); [done|]. by apply singleton_subseteq_l.
  - rewrite size_union, size_singleton; [done|]. by apply disjoint_singleton_l.
Qed.

Lemma invalid_rules_cons order1 order2 g grps :
  invalid_rules order1 order2 (g :: grps)
  = omap (fun r => validateRuleNode order1 order2 r (Name g)) (Rules g)
    ++ invalid_rules order1 order2 grps.
Proof. reflexivity. Qed.

Lemma ValidateGroups_from_parts order1 order2 i (set : gset string) grps :
  List.filter (fun e => negb (is_group_error e))
              (ValidateGroups_from order1 order2 i set grps)
  = invalid_rules order1 order2 grps
  /\ length (List.filter is_empty_name_error
                         (ValidateGroups_from order1 order2 i set grps))
     = length (List.filter (fun g => bool_decide (Name g = "")) grps)
  /\ (length (List.filter is_repeated_name_error
                          (ValidateGroups_from order1 order2 i set grps))
      + size (set ∪ list_to_set (Name <$> grps)))%nat
     = (length grps + size set)%nat
  /\ (length (ValidateGroups_from order1 order2 i set grps)
      + size (set ∪ list_to_set (Name <$> grps)))%nat
     = (length (List.filter (fun g => bool_decide (Name g = "")) grps)
        + length grps + size set
        + length (invalid_rules order1 order2 grps))%nat.
Proof.
  revert i set. induction grps as [|g grps IH]; intros i set.
  - simpl. rewrite union_empty_r_L. repeat split; lia.
  - destruct (IH (S i) ({[Name g]} ∪ set)) as (IH1 & IH2 & IH3 & IH4).
    destruct (not_group_not_empty _ (rule_errors_not_group order1 order2 (Name g) (Rules g)))
      as (He & Hr & Hn).
    assert (set ∪ list_to_set (Name <$> g :: grps)
            = {[Name g]} ∪ set ∪ list_to_set (Name <$> grps)) as Hset.
    { simpl. rewrite (union_comm_L {[Name g]} set). by rewrite <- union_assoc_L. }
    rewrite Hset. rewrite size_add_name in IH3, IH4.
    rewrite invalid_rules_cons. simpl.
    rewrite !List.filter_app, !length_app.
    rewrite (filter_all _ _ Hn), (filter_none _ _ He), (filter_none _ _ Hr), IH1.
    repeat case_bool_decide; simpl; repeat split; try lia.
Qed.

(** X13.  What the errors of [ValidateGroups] consist of: the errors of
    the rules, in the order of the file, are what is left when the errors
    about group names are taken out; there is one empty-name error per
    group with an empty name, and one repeated-name error per group beyond
    the first of each name, so their number is the number of groups less
    the number of distinct names. *)
Theorem ValidateGroups_errors order1 order2 (grps : list RuleGroup) :
  List.filter (fun e => negb (is_group_error e)) (ValidateGroups order1 order2 grps)
  = invalid_rules order1 order2 grps
  /\ length (List.filter is_empty_name_error (ValidateGroups order1 order2 grps))
     = length (List.filter (fun g => bool_decide (Name g = "")) grps)
  /\ (length (List.filter is_repeated_name_error (ValidateGroups order1 order2 grps))
      + size (list_to_set (Name <$> grps) : gset string))%nat
     = length grps
  /\ (length (ValidateGroups order1 order2 grps)
      + size (list_to_set (Name <$> grps) : gset string))%nat
     = (length (List.filter (fun g => bool_decide (Name g = "")) grps)
        + length grps + length (invalid_rules order1 order2 grps))%nat.
Proof.
  destruct (ValidateGroups_from_parts order1 order2 0 ∅ grps) as (H1 & H2 & H3 & H4).
  rewrite union_empty_l_L, size_empty in H3, H4.
  unfold Ruler.ValidateGroups. repeat split; try done.
  - rewrite Nat.add_0_r in H3. exact H3.
  - etrans; [exact H4 | lia].
Qed.

Lemma ValidateGroups_from_app order1 order2 i (set : gset string) grps1 grps2 :
  ValidateGroups_from order1 order2 i set (grps1 ++ grps2)
  = ValidateGroups_from order1 order2 i set grps1
    ++ ValidateGroups_from order1 order2 (i + length grps1)
         (list_to_set (Name <$> grps1) ∪ set) grps2.
Proof.
  revert i set. induction grps1 as [|g grps1 IH]; intros i set; simpl.
  - by rewrite Nat.add_0_r, union_empty_l_L.
  - rewrite IH, <- !app_assoc.
    replace (S i + length grps1)%nat with (i + S (length grps1))%nat by lia.
    replace (list_to_set (Name <$> grps1) ∪ ({[Name g]} ∪ set))
      with ({[Name g]} ∪ list_to_set (Name <$> grps1) ∪ set); [done|].
    rewrite (union_comm_L {[Name g]} (list_to_set _)). by rewrite <- union_assoc_L.
Qed.

(** X14.  Validating more groups keeps what was found: the errors of the
    first groups of a file are the beginning of the errors of the whole
    file, and the rest are the errors of the later groups, numbered from
    where the first ones end and checked against the names already
    seen. *)
Theorem ValidateGroups_app order1 order2 (grps1 grps2 : list RuleGroup) :
  ValidateGroups order1 order2 (grps1 ++ grps2)
  = ValidateGroups order1 order2 grps1
    ++ ValidateGroups_from order1 order2 (length grps1)
         (list_to_set (Name <$> grps1)) grps2
  /\ ValidateGroups order1 order2 grps1
     `prefix_of` ValidateGroups order1 order2 (grps1 ++ grps2).
Proof.
  unfold Ruler.ValidateGroups. rewrite ValidateGroups_from_app. simpl.
  rewrite union_empty_r_L. split; [done|]. by apply prefix_app_r.
Qed.

Lemma group_error_not_rule order1 order2 groupName (rules : list RuleNode) e :
  is_group_error e = true ->
  e ∉ omap (fun r => validateRuleNode order1 order2 r groupName) rules.
Proof.
  intros He (r & _ & Hr)%list_elem_of_omap.
  apply validateRuleNode_not_group in Hr. congruence.
Qed.

Lemma if_singleton_elem {A} (b : bool) (x y : A) :
  y ∈ (if b then [x] else []) <-> b = true /\ y = x.
Proof.
  destruct b.
  - rewrite list_elem_of_singleton. by split; [|intros []].
  - split; [by intros ?%elem_of_nil | by intros []].
Qed.

Lemma EmptyGroupName_from order1 order2 i (set : gset string) grps j :
  EmptyGroupName j ∈ ValidateGroups_from order1 order2 i set grps <->
  (i <= j)%nat /\ exists g, grps !! (j - i)%nat = Some g /\ Name g = "".
Proof.
  revert i set. induction grps as [|g grps IH]; intros i set; simpl.
  - split; [by intros ?%elem_of_nil | by intros (_ & g & ? & _)].
  - rewrite !elem_of_app, !if_singleton_elem, IH, !bool_decide_eq_true. split.
    + intros [[Hn [= ->]] | [[_ ?] | [Hin | (Hle & g' & Hg' & Hn)]]]; try done.
      * split; [lia|]. exists g. by rewrite Nat.sub_diag.
      * by apply group_error_not_rule in Hin.
      * split; [lia|]. exists g'. split; [|done].
        by replace (j - i)%nat with (S (j - S i)) by lia.
    + intros (Hle & g' & Hg' & Hn).
      destruct (decide (j = i)) as [-> | Hne].
      * rewrite Nat.sub_diag in Hg'. simpl in Hg'. simplify_eq. by left.
      * right. right. right. split; [lia|]. exists g'. split; [|done].
        by replace (j - i)%nat with (S (j - S i)) in Hg' by lia.
Qed.

Lemma RepeatedGroupName_from order1 order2 i (set : gset string) grps n :
  RepeatedGroupName n ∈ ValidateGroups_from order1 order2 i set grps <->
  (n ∈ set /\ n ∈ Name <$> grps)
  \/ (exists p q g g',
        (p < q)%nat /\ grps !! p = Some g /\ grps !! q = Some g'
        /\ Name g = n /\ Name g' = n).
Proof.
  revert i set. induction grps as [|g grps IH]; intros i set; simpl.
  - split; [by intros ?%elem_of_nil|].
    intros [[_ ?%elem_of_nil] | (p & q & g & g' & _ & Hp & _)];
      [done | by rewrite lookup_nil in Hp].
  - rewrite !elem_of_app, !if_singleton_elem, IH, !bool_decide_eq_true. split.
    + intros [[_ ?] | [[Hin [= ->]] | [Hin | [[Hin Hn] | Hpq]]]]; try done.
      * left. split; [done|]. by left.
      * by apply group_error_not_rule in Hin.
      * apply elem_of_union in Hin as [->%elem_of_singleton | Hin].
        -- apply list_elem_of_fmap in Hn as (g' & Heq & Hg').
           apply list_elem_of_lookup in Hg' as (q & Hq).
           right. exists 0%nat, (S q), g, g'. repeat split; try done. lia.
        -- left. split; [done|]. by right.
      * destruct Hpq as (p & q & g1 & g2 & Hlt & Hp & Hq & H1 & H2).
        right. exists (S p), (S q), g1, g2. repeat split; try done. lia.
    + intros [[Hin Hn] | (p & q & g1 & g2 & Hlt & Hp & Hq & H1 & H2)].
      * apply elem_of_cons in Hn as [-> | Hn].
        -- right. by left.
        -- right. right. right. left. split; [|done]. apply elem_of_union. by right.
      * destruct q as [|q]; [lia|]. simpl in Hq. destruct p as [|p]; simpl in Hp.
        -- simplify_eq. right. right. right. left. split.
           ++ apply elem_of_union. left. by apply elem_of_singleton.
           ++ apply list_elem_of_fmap. exists g2. split; [done|].
              by eapply list_elem_of_lookup_2.
        -- right. right. right. right.
           exists p, q, g1, g2. repeat split; try done. lia.
Qed.

(** X15.  Which group errors [ValidateGroups] reports.  An empty-name error
    carries number [i] exactly when the group at position [i] (counting
    from 0) has an empty name; a repeated-name error names [n] exactly
    when two groups at different positions are both named [n].  A group
    with an empty name that comes second is reported for both. *)
Theorem ValidateGroups_group_errors order1 order2 (grps : list RuleGroup) :
  (forall i, EmptyGroupName i ∈ ValidateGroups order1 order2 grps <->
             exists g, grps !! i = Some g /\ Name g = "")
  /\ (forall n, RepeatedGroupName n ∈ ValidateGroups order1 order2 grps <->
                exists p q g g',
                  (p < q)%nat /\ grps !! p = Some g /\ grps !! q = Some g'
                  /\ Name g = n /\ Name g' = n).
Proof.
  unfold Ruler.ValidateGroups. split.
  - intros i. rewrite EmptyGroupName_from, Nat.sub_0_r. split.
    + by intros [_ ?].
    + intros ?. split; [lia | done].
  - intros n. rewrite RepeatedGroupName_from. split; [|by right].
    intros [[Hin _] | ?]; [|done]. by apply elem_of_empty in Hin.
Qed.

(** X16.  [ValidateRuleGroup] validates one group on its own: it never
    reports a repeated name, whatever groups were validated before, and
    it accepts the group exactly when its name is not empty and all its
    rules pass. *)
Theorem ValidateRuleGroup_alone order1 order2 (grp : RuleGroup) :
  (forall n, RepeatedGroupName n ∉ ValidateRuleGroup order1 order2 grp)
  /\ (ValidateRuleGroup order1 order2 grp = [] <->
      Name grp <> ""
      /\ forall r, r ∈ Rules grp ->
                   validateRuleNode order1 order2 r (Name grp) = None)
  /\ ValidateRuleGroup order1 order2 grp
     = (if bool_decide (Name grp = "") then [EmptyGroupName 0] else [])
       ++ omap (fun r => validateRuleNode order1 order2 r (Name grp)) (Rules grp).
Proof.
  unfold Ruler.ValidateRuleGroup. split; [|split].
  - intros n Hin. unfold Ruler.ValidateGroups in Hin.
    apply RepeatedGroupName_from in Hin
      as [[Hin _] | (p & q & g & g' & Hlt & Hp & Hq & _)].
    + by apply elem_of_empty in Hin.
    + destruct q as [|q]; [lia|]. by destruct q.
  - unfold Ruler.ValidateGroups. rewrite ValidateGroups_from_nil. split.
    + intros (Hn & _ & Hr). split; [apply Hn; by left|].
      intros r Hin. apply Hr; [by left | done].
    + intros (Hn & Hr). split; [|split].
      * intros g ->%list_elem_of_singleton. split; [done|].
        apply not_elem_of_empty.
      * apply NoDup_singleton.
      * intros g r ->%list_elem_of_singleton. apply Hr.
  - unfold Ruler.ValidateGroups. simpl.
    rewrite (bool_decide_eq_false_2 (Name grp ∈ (∅ : gset string)))
      by apply not_elem_of_empty.
    simpl. by rewrite app_nil_r.
Qed.

Variable yaml_Decode : string -> error + list Ruler.RuleGroup.
Variable ReadFile : string -> error + string.

Local Abbreviation Load :=
  (Ruler.Load ParseExpr IsValidMetricName LabelName_IsValid
              LabelValue_IsValid ParseTest yaml_Decode ReadFile).

(** [Load] returns no groups exactly when the file cannot be read or
    decoded, and then exactly one error, wrapped with the file name.
    Otherwise it returns the decoded groups, also when they do not
    validate, together with the errors of [ValidateGroups] on them, each
    wrapped with the file name and in the same order. *)
Lemma Load_outcome order1 order2 (identifier : string) :
  match Load order1 order2 identifier with
  | (None, errs) =>
      (exists err, errs = [Wrapped identifier (Foreign err)])
      /\ ((exists err, ReadFile identifier = inl err)
          \/ (exists b err, ReadFile identifier = inr b /\ yaml_Decode b = inl err))
  | (Some groups, errs) =>
      exists b, ReadFile identifier = inr b /\ yaml_Decode b = inr groups
                /\ errs = Wrapped identifier <$> ValidateGroups order1 order2 groups
                /\ length errs = length (ValidateGroups order1 order2 groups)
  end.
Proof.
  unfold Ruler.Load, Ruler.parseRules.
  destruct (ReadFile identifier) as [e | b] eqn:Hread.
  - split; [by eexists | left; by eexists].
  - destruct (yaml_Decode b) as [e | groups] eqn:Hdec; simpl.
    + split; [by eexists | right; by eexists _, _].
    + exists b. repeat split; try done. by rewrite length_fmap.
Qed.

End RulerProperties.


(** * The definitions at work on the sample collaborators *)

Section Witnesses.
Import Sample.

Local Abbreviation push_s := (Push.push json_Unmarshal translate).
Local Abbreviation newPushTarget_s :=
  (Push.newPushTarget (H := ListSink) (Srv := SimpleServer)
     IsValidMetricName MergeWithDefaults []).
Local Abbreviation newPullTarget_s :=
  (Pull.newPullTarget (H := ListSink) pubsub_NewClient).
Local Abbreviation exec_s := (Pull.exec (H := ListSink) (Client := unit) format).
Local Abbreviation step_s := (Pull.step (H := ListSink) (Client := unit) format).

(** One handle goes through, a second fails to translate. *)
Example pull_two_messages :
  (exec_s [Pull.RunStart; Pull.Deliver msg_hello; Pull.SelectMsg 0 5;
           Pull.SinkAccept; Pull.Deliver msg_bad; Pull.SelectMsg 0 6] pull0
   ≫= fun s => Some (Pull.trace s, queue (Pull.handler (Pull.target s)))) =
  Some ([Pull.EvRecv msg_hello;
         Pull.EvFormat msg_hello (inr (mkEntry labels0 5 "hello"));
         Pull.EvSend msg_hello (mkEntry labels0 5 "hello");
         Pull.EvAck msg_hello;
         Pull.EvRecv msg_bad;
         Pull.EvFormat msg_bad (inl "empty log line");
         Pull.EvAck msg_bad],
        [mkEntry labels0 5 "hello"]).
Proof. reflexivity. Qed.

(** Without a receiver at the [select], a delivered handle stays with its
    callback; the consumer cannot take a handle while it waits for the
    sink. *)
Example pull_blocked_on_sink :
  (exec_s [Pull.RunStart; Pull.Deliver msg_hello; Pull.SelectMsg 0 5;
           Pull.Deliver msg_bad] pull0
   ≫= fun s => Some (Pull.callbacks s, step_s (Pull.SelectMsg 0 6) s)) =
  Some ([msg_bad], None).
Proof. reflexivity. Qed.

Example push_accepts_hello :
  match push_s true push0 response0 (request_of "hello") world0 with
  | Push.Returned h rw _ =>
      (Push.status rw, queue (Push.handler h), gcpPushEntries (Push.metrics h))
      = (Some 204%Z, [mkEntry labels0 0 "hello"], 1)
  | Push.BlockedInSend _ _ _ _ => False
  end.
Proof. reflexivity. Qed.

Example job_name_validity :
  IsValidMetricName ("promtail_gcp_push_target_" +:+ "job1") = true
  /\ IsValidMetricName ("promtail_gcp_push_target_" +:+ "my job") = false.
Proof. by split. Qed.

Lemma push_failure_bad_request_witness :
  Push.status response0 = None
  /\ Push.push_failure json_Unmarshal translate push0 (request_of "")
       "unexpected end of JSON input"
  /\ exists h' rw' w',
       push_s false push0 response0 (request_of "") world0 = Push.Returned h' rw' w'
       /\ Push.status rw' = Some 400%Z
       /\ gcpPushErrors (Push.metrics h') = S (gcpPushErrors (Push.metrics push0))
       /\ gcpPushEntries (Push.metrics h') = gcpPushEntries (Push.metrics push0)
       /\ Push.handler h' = Push.handler push0.
Proof.
  assert (Push.push_failure json_Unmarshal translate push0 (request_of "")
            "unexpected end of JSON input") as Hf.
  { eapply Push.payload_unparseable; reflexivity. }
  split; [reflexivity|]. split; [exact Hf|].
  apply (push_failure_bad_request json_Unmarshal translate false push0 response0
           (request_of "") world0 "unexpected end of JSON input");
    [reflexivity | exact Hf].
Defined.

Lemma push_success_no_content_witness :
  (exists h' rw' w',
      push_s true push0 response0 (request_of "hello") world0 = Push.Returned h' rw' w'
      /\ Push.handler h' = Chan_send (mkEntry labels0 0 "hello") (Push.handler push0)
      /\ Push.status rw' = Some 204%Z
      /\ gcpPushEntries (Push.metrics h') = S (gcpPushEntries (Push.metrics push0))
      /\ gcpPushErrors (Push.metrics h') = gcpPushErrors (Push.metrics push0))
  /\ (exists w',
        push_s false push0 response0 (request_of "hello") world0
        = Push.BlockedInSend (mkEntry labels0 0 "hello") push0 response0 w').
Proof.
  apply (push_success_no_content json_Unmarshal translate push0 response0
           (request_of "hello") world0 "hello" "hello" (mkEntry labels0 0 "hello"));
    reflexivity.
Defined.

Lemma newPushTarget_invalid_job_name_witness :
  IsValidMetricName ("promtail_gcp_push_target_" +:+ "my job") = false
  /\ exists err w',
       newPushTarget_s metrics0 [] (mkSink [] false) "my job" config0 [] world0
       = (inl err, w')
       /\ Push.created w' = Push.created world0
       /\ Push.serving w' = Push.serving world0.
Proof.
  split; [reflexivity|].
  apply (newPushTarget_invalid_job_name (H := ListSink) (Srv := SimpleServer)
           IsValidMetricName MergeWithDefaults []).
  reflexivity.
Defined.


Lemma handoff_unbuffered_witness :
  newPullTarget_s metrics0 [] (mkSink [] false) [] "job1" config0 = inr pull0
  /\ exec_s sched_waiting pull0 = Some (after sched_waiting)
  /\ Pull.msgs (Pull.target (after sched_waiting)) = Pull.mkChan 0 []
  /\ Pull.callbacks (after sched_waiting) = [msg_bad]
  /\ (forall sched' s',
        Pull.SinkAccept ∉ sched' ->
        exec_s sched' (after sched_waiting) = Some s' ->
        Pull.count Pull.is_any_recv (Pull.trace s')
        = Pull.count Pull.is_any_recv (Pull.trace (after sched_waiting))
        /\ Pull.callbacks (after sched_waiting) `prefix_of` Pull.callbacks s').
Proof.
  assert (newPullTarget_s metrics0 [] (mkSink [] false) [] "job1" config0 = inr pull0)
    as pull0_constructed by reflexivity.
  assert (exec_s sched_waiting pull0 = Some (after sched_waiting)) as after_sched_waiting
      by (vm_compute; reflexivity).
  pose proof (handoff_unbuffered (H := ListSink) pubsub_NewClient format
                metrics0 [] (mkSink [] false) [] "job1" config0
                sched_waiting pull0 (after sched_waiting)
                pull0_constructed after_sched_waiting) as (_ & Hch & _ & Hblocked & _).
  split; [exact pull0_constructed|]. split; [exact after_sched_waiting|].
  split; [exact Hch|]. split; [vm_compute; reflexivity|].
  intros sched' s' Hno Hex.
  assert (Pull.consumer (after sched_waiting)
          = Pull.CSending msg_hello (mkEntry labels0 5 "hello")) as Hc
      by (vm_compute; reflexivity).
  destruct (Hblocked msg_hello (mkEntry labels0 5 "hello") sched' s' Hc Hno Hex)
    as (_ & Hrecv & Hpre).
  split; [exact Hrecv | exact Hpre].
Defined.

Lemma translation_failure_not_counted_witness :
  Pull.consumer (after [Pull.RunStart; Pull.Deliver msg_bad]) = Pull.CSelect
  /\ Pull.callbacks (after [Pull.RunStart; Pull.Deliver msg_bad]) !! 0%nat = Some msg_bad
  /\ exists s',
       step_s (Pull.SelectMsg 0 6) (after [Pull.RunStart; Pull.Deliver msg_bad]) = Some s'
       /\ Pull.trace s' = [Pull.EvRecv msg_bad;
                           Pull.EvFormat msg_bad (inl "empty log line");
                           Pull.EvAck msg_bad]
       /\ Pull.handler (Pull.target s')
          = Pull.handler (Pull.target (after [Pull.RunStart; Pull.Deliver msg_bad]))
       /\ Pull.metrics (Pull.target s')
          = Pull.metrics (Pull.target (after [Pull.RunStart; Pull.Deliver msg_bad])).
Proof.
  assert (Pull.consumer (after [Pull.RunStart; Pull.Deliver msg_bad]) = Pull.CSelect)
    as Hc by (vm_compute; reflexivity).
  assert (Pull.callbacks (after [Pull.RunStart; Pull.Deliver msg_bad]) !! 0%nat
          = Some msg_bad) as Hcb by (vm_compute; reflexivity).
  destruct (translation_failure_not_counted (H := ListSink) format
              (after [Pull.RunStart; Pull.Deliver msg_bad]) 0 6%Z msg_bad
              "empty log line" Hc ltac:(vm_compute; reflexivity) Hcb
              ltac:(vm_compute; reflexivity))
    as (s' & Hs & _ & Htr & Hh & Hm & _).
  split; [exact Hc|]. split; [exact Hcb|].
  exists s'. split; [exact Hs|]. split; [exact Htr|]. split; [exact Hh | exact Hm].
Defined.

Lemma Stop_returns_before_consumer_runs_witness :
  newPullTarget_s metrics0 [] (mkSink [] false) [] "job1" config0 = inr pull0
  /\ exists s1 s2,
       exec_s [Pull.StopCall; Pull.StopJoin] pull0 = Some s1
       /\ Pull.trace s1 = [Pull.EvCancel; Pull.EvWaitReturn; Pull.EvHandlerStop;
                           Pull.EvStopReturn]
       /\ Pull.stopper s1 = Pull.SIdle 1
       /\ Pull.consumer s1 = Pull.CSpawned
       /\ step_s Pull.RunStart s1 = Some s2
       /\ Pull.consumer s2 = Pull.CSelect
       /\ Pull.receiver s2 = Pull.RReceiving.
Proof.
  assert (newPullTarget_s metrics0 [] (mkSink [] false) [] "job1" config0 = inr pull0)
    as pull0_constructed by reflexivity.
  split; [exact pull0_constructed|].
  apply (Stop_returns_before_consumer_runs (H := ListSink) pubsub_NewClient format
           metrics0 [] (mkSink [] false) [] "job1" config0 pull0).
  exact pull0_constructed.
Defined.

(** C6, as first stated, fails twice.  When [sub.Receive] returns nil (as
    it does once the context is cancelled) nothing is logged or counted.
    And with the consumer waiting in [send <- entry] when [sub.Receive]
    returns, the cancellation alone does not end the loop: no schedule in
    which the sink does not take the entry does. *)
Lemma receive_exit_not_as_stated :
  ~ Pull.receive_exit_always_reported (H := ListSink) (Client := unit) format receiving0
  /\ ~ Pull.receive_exit_ends_loop (H := ListSink) (Client := unit) format
        (after sched_sending).
Proof.
  split.
  - intros Hall. destruct (Hall None 7%Z) as (s' & Hs & (l & Hl) & _).
    vm_compute in Hs. injection Hs as <-. simpl in Hl. by destruct l.
  - intros Hall.
    assert (exec_s (sched_sending ++ [Pull.ReceiveReturn (Some "subscription deleted") 9])
                   pull0
            = Some (after (sched_sending
                           ++ [Pull.ReceiveReturn (Some "subscription deleted") 9])))
      as Hex by (vm_compute; reflexivity).
    assert (newPullTarget_s metrics0 [] (mkSink [] false) [] "job1" config0 = inr pull0)
      as Hnew by reflexivity.
    destruct (exec_Inv pubsub_NewClient format _ _ _ _ _ _ _ _ _ Hnew Hex) as [Hinv _].
    destruct (Hall (Some "subscription deleted") 9%Z
                (after (sched_sending
                        ++ [Pull.ReceiveReturn (Some "subscription deleted") 9])))
      as (sched & s'' & Hno & Hrun & Hc); [vm_compute; reflexivity|].
    destruct (blocked_exec pubsub_NewClient format sched _ s'' msg_hello
                (mkEntry labels0 5 "hello") Hinv) as (Hc' & _);
      [vm_compute; reflexivity | exact Hno | exact Hrun |].
    congruence.
Qed.

Lemma receive_return_cancels_witness :
  newPullTarget_s metrics0 [] (mkSink [] false) [] "job1" config0 = inr pull0
  /\ exec_s sched_sending pull0 = Some (after sched_sending)
  /\ Pull.receiver (after sched_sending) = Pull.RReceiving
  /\ exists s',
       step_s (Pull.ReceiveReturn (Some "subscription deleted") 9) (after sched_sending)
       = Some s'
       /\ Pull.ctx_done (Pull.target s') = true
       /\ Pull.receiver s' = Pull.RReturned
       /\ Pull.reports_receive_exit 9 (after sched_sending) s'
       /\ (forall sched s'',
             exec_s sched s' = Some s'' ->
             (Pull.consumer_steps sched + Pull.remaining_steps s''
              <= Pull.remaining_steps s')%nat).
Proof.
  assert (newPullTarget_s metrics0 [] (mkSink [] false) [] "job1" config0 = inr pull0)
    as pull0_constructed by reflexivity.
  assert (exec_s sched_sending pull0 = Some (after sched_sending)) as Hex
      by (vm_compute; reflexivity).
  assert (Pull.receiver (after sched_sending) = Pull.RReceiving) as Hrecv
      by (vm_compute; reflexivity).
  destruct (receive_return_cancels (H := ListSink) pubsub_NewClient format
              metrics0 [] (mkSink [] false) [] "job1" config0
              sched_sending pull0 (after sched_sending)
              (Some "subscription deleted") 9%Z
              pull0_constructed Hex Hrecv)
    as (s' & Hs & Hd & Hr & _ & _ & Hrep & _ & Hlater).
  split; [exact pull0_constructed|]. split; [exact Hex|]. split; [exact Hrecv|].
  exists s'. split; [exact Hs|]. split; [exact Hd|]. split; [exact Hr|].
  split; [exact (proj1 (Hrep _ eq_refl))|].
  intros sched s'' Hrun.
  destruct (Hlater sched s'' Hrun) as (_ & _ & _ & _ & Hm & _). exact Hm.
Defined.



(** C9, as first stated, fails for the pull variant: its [Details] is nil,
    not a map. *)
Lemma pull_Details_is_not_a_map :
  is_map (Pull.Details (Pull.target pull0)) = false.
Proof. reflexivity. Qed.

Lemma facade_results_witness :
  newPushTarget_s metrics0 [] (mkSink [] false) "job1" config0 [] world0
  = (inr built_target, snd built)
  /\ (exists h' w',
        Push.calls json_Unmarshal translate
          [Push.CallPush true response0 (request_of "hello");
           Push.CallPush true response0 (request_of "");
           Push.CallStop]
          built_target (snd built) = Some (h', w')
        /\ Push.Labels h' = labels0
        /\ Push.Details h' = any_map ∅)
  /\ newPullTarget_s metrics0 [] (mkSink [] false) [] "job1" config0 = inr pull0
  /\ exec_s sched_two pull0 = Some (after sched_two)
  /\ Pull.Labels (Pull.target (after sched_two)) = labels0
  /\ Pull.Details (Pull.target (after sched_two)) = any_nil.
Proof.
  assert (newPullTarget_s metrics0 [] (mkSink [] false) [] "job1" config0 = inr pull0)
    as pull0_constructed by reflexivity.
  assert (exec_s sched_two pull0 = Some (after sched_two)) as after_sched_two
      by (vm_compute; reflexivity).
  assert (newPushTarget_s metrics0 [] (mkSink [] false) "job1" config0 [] world0
          = (inr built_target, snd built)) as Hpush by (vm_compute; reflexivity).
  destruct (Push.calls json_Unmarshal translate
              [Push.CallPush true response0 (request_of "hello");
               Push.CallPush true response0 (request_of "");
               Push.CallStop]
              built_target (snd built)) as [[h' w']|] eqn:Hcalls;
    [|by vm_compute in Hcalls].
  destruct (facade_results (H := ListSink) (Srv := SimpleServer)
              json_Unmarshal translate
              pubsub_NewClient format IsValidMetricName MergeWithDefaults [] "Gcplog")
    as [Hfpush Hfpull].
  destruct (Hfpush metrics0 [] (mkSink [] false) [] "job1" config0 world0 (snd built)
              w' built_target h' _ Hpush Hcalls) as (_ & Hl & _ & _ & Hd).
  destruct (Hfpull metrics0 [] (mkSink [] false) [] "job1" config0 sched_two pull0
              (after sched_two) pull0_constructed after_sched_two)
    as (_ & Hl' & _ & _ & Hd').
  split; [exact Hpush|]. split.
  - exists h', w'. split; [reflexivity|]. split; [exact Hl | exact Hd].
  - split; [exact pull0_constructed|]. split; [exact after_sched_two|].
    split; [exact Hl' | exact Hd'].
Defined.

End Witnesses.


(** * The further properties at work on the sample collaborators *)

Section MoreWitnesses.
Import Sample.

Local Abbreviation push_s := (Push.push json_Unmarshal translate).
Local Abbreviation newPullTarget_s :=
  (Pull.newPullTarget (H := ListSink) pubsub_NewClient).
Local Abbreviation exec_s := (Pull.exec (H := ListSink) (Client := unit) format).
Local Abbreviation step_s := (Pull.step (H := ListSink) (Client := unit) format).
Local Abbreviation validateRuleNode_s :=
  (Ruler.validateRuleNode RulerSample.ParseExpr IsValidMetricName
     RulerSample.LabelName_IsValid RulerSample.LabelValue_IsValid
     RulerSample.ParseTest).
Local Abbreviation ValidateGroups_s :=
  (Ruler.ValidateGroups RulerSample.ParseExpr IsValidMetricName
     RulerSample.LabelName_IsValid RulerSample.LabelValue_IsValid
     RulerSample.ParseTest).

(** The whole life of a pull target: two handles, the subscription ends
    with an error, the loop is left, [Stop] is called. *)
Example pull_full_run :
  (exec_s (sched_two ++ [Pull.ReceiveReturn (Some "gone") 9; Pull.SelectDone;
                          Pull.StopCall; Pull.StopJoin]) pull0
   ≫= fun s => Some (Pull.consumer s, Pull.wg (Pull.target s),
                     Pull.handler (Pull.target s),
                     vec_get "my-project" (gcplogEntries (Pull.metrics (Pull.target s))),
                     vec_get "my-project" (gcplogErrors (Pull.metrics (Pull.target s))))) =
  Some (Pull.CReturned, 0%Z, mkSink [mkEntry labels0 5 "hello"] true, 1, 1).
Proof. vm_compute. reflexivity. Qed.

(** The sample groups: the second has an empty name and a rule with both
    record and alert, the third repeats the name of the first. *)
Example validate_sample_groups :
  ValidateGroups_s RulerSample.order RulerSample.order RulerSample.groups0
  = [Ruler.EmptyGroupName 1; Ruler.BothRecordAndAlert;
     Ruler.RepeatedGroupName "alerts"].
Proof. vm_compute. reflexivity. Qed.

Lemma wait_group_counter_witness :
  newPullTarget_s metrics0 [] (mkSink [] false) [] "job1" config0 = inr pull0
  /\ exec_s sched_waiting pull0 = Some (after sched_waiting)
  /\ Pull.wg (Pull.target (after sched_waiting)) = 1%Z.
Proof.
  assert (newPullTarget_s metrics0 [] (mkSink [] false) [] "job1" config0 = inr pull0)
    as Hnew by reflexivity.
  assert (exec_s sched_waiting pull0 = Some (after sched_waiting)) as Hex
      by (vm_compute; reflexivity).
  destruct (wait_group_counter (H := ListSink) pubsub_NewClient format
              metrics0 [] (mkSink [] false) [] "job1" config0
              sched_waiting pull0 (after sched_waiting) Hnew Hex) as [Hwg _].
  split; [exact Hnew|]. split; [exact Hex|].
  rewrite Hwg. vm_compute. reflexivity.
Defined.

Lemma Stop_joins_started_consumer_witness :
  newPullTarget_s metrics0 [] (mkSink [] false) [] "job1" config0 = inr pull0
  /\ exec_s [Pull.RunStart; Pull.StopCall; Pull.SelectDone] pull0
     = Some (after [Pull.RunStart; Pull.StopCall; Pull.SelectDone])
  /\ Pull.consumer (after [Pull.RunStart; Pull.StopCall; Pull.SelectDone])
     = Pull.CReturned
  /\ Pull.count PullTrace.is_any_send
       (Pull.trace (after [Pull.RunStart; Pull.StopCall; Pull.SelectDone;
                           Pull.StopJoin; Pull.Deliver msg_hello]))
     = Pull.count PullTrace.is_any_send
         (Pull.trace (after [Pull.RunStart; Pull.StopCall; Pull.SelectDone;
                             Pull.StopJoin])).
Proof.
  assert (newPullTarget_s metrics0 [] (mkSink [] false) [] "job1" config0 = inr pull0)
    as Hnew by reflexivity.
  assert (exec_s [Pull.RunStart; Pull.StopCall; Pull.SelectDone] pull0
          = Some (after [Pull.RunStart; Pull.StopCall; Pull.SelectDone])) as Hex
      by (vm_compute; reflexivity).
  destruct (Stop_joins_started_consumer (H := ListSink) pubsub_NewClient format
              metrics0 [] (mkSink [] false) [] "job1" config0
              [Pull.RunStart; Pull.StopCall; Pull.SelectDone] [Pull.Deliver msg_hello]
              pull0
              (after [Pull.RunStart; Pull.StopCall; Pull.SelectDone])
              (after [Pull.RunStart; Pull.StopCall; Pull.SelectDone; Pull.StopJoin])
              (after [Pull.RunStart; Pull.StopCall; Pull.SelectDone; Pull.StopJoin;
                      Pull.Deliver msg_hello])
              Hnew Hex ltac:(vm_compute; discriminate)
              ltac:(vm_compute; reflexivity) ltac:(vm_compute; reflexivity))
    as (Hc & _ & _ & _ & Hsend & _).
  split; [exact Hnew|]. split; [exact Hex|]. split; [exact Hc | exact Hsend].
Defined.

Lemma sink_replays_trace_witness :
  newPullTarget_s metrics0 [] (mkSink [] false) [] "job1" config0 = inr pull0
  /\ exec_s sched_two pull0 = Some (after sched_two)
  /\ Pull.handler (Pull.target (after sched_two))
     = PullTrace.replay (Pull.trace (after sched_two)) (mkSink [] false).
Proof.
  assert (newPullTarget_s metrics0 [] (mkSink [] false) [] "job1" config0 = inr pull0)
    as Hnew by reflexivity.
  assert (exec_s sched_two pull0 = Some (after sched_two)) as Hex
      by (vm_compute; reflexivity).
  split; [exact Hnew|]. split; [exact Hex|].
  exact (sink_replays_trace (H := ListSink) pubsub_NewClient format
           metrics0 [] (mkSink [] false) [] "job1" config0
           sched_two pull0 (after sched_two) Hnew Hex).
Defined.

Lemma pull_counters_witness :
  newPullTarget_s metrics0 [] (mkSink [] false) [] "job1" config0 = inr pull0
  /\ exec_s sched_two pull0 = Some (after sched_two)
  /\ vec_get "my-project" (gcplogEntries (Pull.metrics (Pull.target (after sched_two))))
     = (vec_get "my-project" (gcplogEntries metrics0)
        + Pull.count PullTrace.is_any_send (Pull.trace (after sched_two)))%nat
  /\ vec_get "my-project" (gcplogErrors (Pull.metrics (Pull.target (after sched_two))))
     = (vec_get "my-project" (gcplogErrors metrics0)
        + Pull.count PullTrace.is_receive_error (Pull.trace (after sched_two)))%nat.
Proof.
  assert (newPullTarget_s metrics0 [] (mkSink [] false) [] "job1" config0 = inr pull0)
    as Hnew by reflexivity.
  assert (exec_s sched_two pull0 = Some (after sched_two)) as Hex
      by (vm_compute; reflexivity).
  destruct (pull_counters (H := ListSink) pubsub_NewClient format
              metrics0 [] (mkSink [] false) [] "job1" config0
              sched_two pull0 (after sched_two) Hnew Hex) as (He & Hr & _).
  split; [exact Hnew|]. split; [exact Hex|]. split; [exact He | exact Hr].
Defined.

Lemma sent_entries_are_formatted_witness :
  newPullTarget_s metrics0 [] (mkSink [] false) [] "job1" config0 = inr pull0
  /\ exec_s sched_two pull0 = Some (after sched_two)
  /\ Pull.EvSend msg_hello (mkEntry labels0 5 "hello") ∈ Pull.trace (after sched_two)
  /\ exists now, format msg_hello (cfgLabels config0) (UseIncomingTimestamp config0)
                        [] now = inr (mkEntry labels0 5 "hello").
Proof.
  assert (newPullTarget_s metrics0 [] (mkSink [] false) [] "job1" config0 = inr pull0)
    as Hnew by reflexivity.
  assert (exec_s sched_two pull0 = Some (after sched_two)) as Hex
      by (vm_compute; reflexivity).
  assert (Pull.EvSend msg_hello (mkEntry labels0 5 "hello")
          ∈ Pull.trace (after sched_two)) as Hin.
  { vm_compute. do 2 apply list_elem_of_further. apply list_elem_of_here. }
  destruct (sent_entries_are_formatted (H := ListSink) pubsub_NewClient format
              metrics0 [] (mkSink [] false) [] "job1" config0
              sched_two pull0 (after sched_two) Hnew Hex) as [Hsend _].
  split; [exact Hnew|]. split; [exact Hex|]. split; [exact Hin|].
  exact (Hsend _ _ Hin).
Defined.

Lemma returned_consumer_takes_nothing_witness :
  newPullTarget_s metrics0 [] (mkSink [] false) [] "job1" config0 = inr pull0
  /\ exec_s [Pull.RunStart; Pull.StopCall; Pull.SelectDone] pull0
     = Some (after [Pull.RunStart; Pull.StopCall; Pull.SelectDone])
  /\ Pull.consumer (after [Pull.RunStart; Pull.StopCall; Pull.SelectDone])
     = Pull.CReturned
  /\ Pull.callbacks (after [Pull.RunStart; Pull.StopCall; Pull.SelectDone])
     `prefix_of`
     Pull.callbacks (after [Pull.RunStart; Pull.StopCall; Pull.SelectDone;
                            Pull.Deliver msg_hello]).
Proof.
  assert (newPullTarget_s metrics0 [] (mkSink [] false) [] "job1" config0 = inr pull0)
    as Hnew by reflexivity.
  assert (exec_s [Pull.RunStart; Pull.StopCall; Pull.SelectDone] pull0
          = Some (after [Pull.RunStart; Pull.StopCall; Pull.SelectDone])) as Hex
      by (vm_compute; reflexivity).
  assert (Pull.consumer (after [Pull.RunStart; Pull.StopCall; Pull.SelectDone])
          = Pull.CReturned) as Hc by (vm_compute; reflexivity).
  destruct (returned_consumer_takes_nothing (H := ListSink) pubsub_NewClient format
              metrics0 [] (mkSink [] false) [] "job1" config0
              [Pull.RunStart; Pull.StopCall; Pull.SelectDone] [Pull.Deliver msg_hello]
              pull0
              (after [Pull.RunStart; Pull.StopCall; Pull.SelectDone])
              (after [Pull.RunStart; Pull.StopCall; Pull.SelectDone;
                      Pull.Deliver msg_hello])
              Hnew Hex Hc ltac:(vm_compute; reflexivity))
    as (_ & _ & _ & _ & Hpre).
  split; [exact Hnew|]. split; [exact Hex|]. split; [exact Hc | exact Hpre].
Defined.

Lemma cancellation_and_exit_witness :
  newPullTarget_s metrics0 [] (mkSink [] false) [] "job1" config0 = inr pull0
  /\ exec_s [Pull.RunStart; Pull.StopCall; Pull.SelectDone] pull0
     = Some (after [Pull.RunStart; Pull.StopCall; Pull.SelectDone])
  /\ (Pull.ctx_done (Pull.target (after [Pull.RunStart; Pull.StopCall; Pull.SelectDone]))
      = true
      <-> Pull.EvCancel
          ∈ Pull.trace (after [Pull.RunStart; Pull.StopCall; Pull.SelectDone]))
  /\ PullTrace.exit_after_cancel
       (Pull.trace (after [Pull.RunStart; Pull.StopCall; Pull.SelectDone])).
Proof.
  assert (newPullTarget_s metrics0 [] (mkSink [] false) [] "job1" config0 = inr pull0)
    as Hnew by reflexivity.
  assert (exec_s [Pull.RunStart; Pull.StopCall; Pull.SelectDone] pull0
          = Some (after [Pull.RunStart; Pull.StopCall; Pull.SelectDone])) as Hex
      by (vm_compute; reflexivity).
  destruct (cancellation_and_exit (H := ListSink) pubsub_NewClient format
              metrics0 [] (mkSink [] false) [] "job1" config0
              [Pull.RunStart; Pull.StopCall; Pull.SelectDone] pull0
              (after [Pull.RunStart; Pull.StopCall; Pull.SelectDone]) Hnew Hex)
    as (Hc & _ & Hord & _).
  split; [exact Hnew|]. split; [exact Hex|]. split; [exact Hc | exact Hord].
Defined.

Lemma handler_stopped_by_Stop_witness :
  newPullTarget_s metrics0 [] (mkSink [] false) [] "job1" config0 = inr pull0
  /\ exec_s [Pull.RunStart; Pull.StopCall; Pull.SelectDone; Pull.StopJoin] pull0
     = Some (after [Pull.RunStart; Pull.StopCall; Pull.SelectDone; Pull.StopJoin])
  /\ PullTrace.stop_after_join
       (Pull.trace (after [Pull.RunStart; Pull.StopCall; Pull.SelectDone;
                           Pull.StopJoin]))
  /\ Pull.count PullTrace.is_handler_stop
       (Pull.trace (after [Pull.RunStart; Pull.StopCall; Pull.SelectDone;
                           Pull.StopJoin]))
     = Pull.count PullTrace.is_stop_return
         (Pull.trace (after [Pull.RunStart; Pull.StopCall; Pull.SelectDone;
                             Pull.StopJoin])).
Proof.
  assert (newPullTarget_s metrics0 [] (mkSink [] false) [] "job1" config0 = inr pull0)
    as Hnew by reflexivity.
  assert (exec_s [Pull.RunStart; Pull.StopCall; Pull.SelectDone; Pull.StopJoin] pull0
          = Some (after [Pull.RunStart; Pull.StopCall; Pull.SelectDone; Pull.StopJoin]))
    as Hex by (vm_compute; reflexivity).
  destruct (handler_stopped_by_Stop (H := ListSink) pubsub_NewClient format
              metrics0 [] (mkSink [] false) [] "job1" config0
              [Pull.RunStart; Pull.StopCall; Pull.SelectDone; Pull.StopJoin] pull0
              (after [Pull.RunStart; Pull.StopCall; Pull.SelectDone; Pull.StopJoin])
              Hnew Hex) as (Hord & Hcnt & _).
  split; [exact Hnew|]. split; [exact Hex|]. split; [exact Hord | exact Hcnt].
Defined.

Lemma push_counts_once_witness :
  Push.status response0 = None
  /\ match push_s true push0 response0 (request_of "!drop") world0 with
     | Push.Returned h' rw' w' =>
         Push.status rw' = Some 400%Z
         /\ gcpPushErrors (Push.metrics h') = 1
         /\ gcpPushEntries (Push.metrics h') = 0
     | Push.BlockedInSend _ _ _ _ => False
     end.
Proof.
  pose proof (push_counts_once json_Unmarshal translate true push0 response0
                (request_of "!drop") world0 eq_refl) as Hp.
  split; [reflexivity|].
  destruct (push_s true push0 response0 (request_of "!drop") world0)
    as [h' rw' w' | entry h' rw' w'] eqn:Hpush.
  - vm_compute in Hpush. injection Hpush as <- <- <-. by vm_compute.
  - by destruct Hp.
Defined.

Lemma validateRuleNode_accepts_witness :
  Ruler.visits_entries RulerSample.order
  /\ (validateRuleNode_s RulerSample.order RulerSample.order RulerSample.alert_rule
        "alerts" = None
      <-> Ruler.rule_ok RulerSample.ParseExpr IsValidMetricName
            RulerSample.LabelName_IsValid RulerSample.LabelValue_IsValid
            RulerSample.ParseTest RulerSample.alert_rule)
  /\ validateRuleNode_s RulerSample.order RulerSample.order RulerSample.alert_rule
       "alerts" = None.
Proof.
  assert (Ruler.visits_entries RulerSample.order) as Ho.
  { intros m k v. apply elem_of_map_to_list. }
  split; [exact Ho|]. split.
  - exact (validateRuleNode_accepts RulerSample.ParseExpr IsValidMetricName
             RulerSample.LabelName_IsValid RulerSample.LabelValue_IsValid
             RulerSample.ParseTest RulerSample.order RulerSample.order
             RulerSample.alert_rule "alerts" Ho Ho).
  - vm_compute. reflexivity.
Defined.

End MoreWitnesses.
